(** * use-debounce: the debounce controller of [useDebouncedCallback]

    A shallow embedding of [src/useDebouncedCallback.ts].  The hook keeps
    its timing state in React refs and talks to two host services: the
    wall clock ([Date.now]) and the timer queue ([setTimeout] /
    [requestAnimationFrame]).  Here the refs are a record, the host is a
    record holding the clock, the queue of live timers and the log of calls
    made to the target function, and every closure of the hook is a function
    that passes this world along explicitly.

    Numbers are modelled as integers (milliseconds).  The target is a
    function from the argument list to a result; the construction-time test
    [typeof func !== 'function'] is what its type says, and [funcRef] always
    holds it.  The [this] receiver that the hook stores next to the arguments
    is not modelled.

    The file has two parts: the embedding (values, configuration, refs,
    host, closures, event loop), then the properties, grouped by the
    operation they are about. *)

From Stdlib Require Import ZArith List Bool Lia PeanoNat String.
Import ListNotations.
Set Implicit Arguments.
Local Open Scope Z_scope.

(** ** JavaScript values coerced by the hook *)

(** A [number | undefined] parameter as the hook may receive it. *)
Inductive jsnum : Type :=
| JUndefined
| JNaN
| JNum (z : Z).

(** [!x] *)
Definition js_not (x : jsnum) : bool :=
  match x with
  | JNum z => z =? 0
  | _ => true
  end.

(** [x !== 0] *)
Definition js_strict_neq_zero (x : jsnum) : bool :=
  match x with
  | JNum z => negb (z =? 0)
  | _ => true
  end.

(** [+x || 0] *)
Definition js_number_or_zero (x : jsnum) : Z :=
  match x with
  | JNum z => z
  | _ => 0
  end.

(** [!x] for a ref holding [null] or a number: [null] and [0] are falsy. *)
Definition js_not_time (x : option Z) : bool :=
  match x with
  | None => true
  | Some z => z =? 0
  end.

(** [ToNumber] of a ref holding [null] or a number, as in [time - ref]. *)
Definition js_to_number (x : option Z) : Z :=
  match x with
  | None => 0
  | Some z => z
  end.

(** [!x] for a ref holding [null] or an object (an array, a timer handle):
    every object is truthy, the empty array included.  Timer handles are
    positive integers (or objects), hence truthy as well. *)
Definition js_not_ref {X : Type} (x : option X) : bool :=
  match x with
  | None => true
  | Some _ => false
  end.

(** [f.apply(thisArg, args)] with [args] possibly [null]. *)
Definition js_apply_args {X : Type} (args : option (list X)) : list X :=
  match args with
  | None => []
  | Some l => l
  end.

(** ** The [Options] interface

    A field is [None] when the key is not in the object.  For [trailing]
    the hook tests ['trailing' in options], so a key that is present with
    the value [undefined] is [Some None]. *)
Record Options : Type := mkOptions {
  opt_maxWait : option jsnum;
  opt_leading : option bool;
  opt_trailing : option (option bool)
}.

Definition no_options : Options :=
  {| opt_maxWait := None; opt_leading := None; opt_trailing := None |}.

(** [!!x] for an optional boolean. *)
Definition js_truthy_bool (x : option bool) : bool :=
  match x with
  | Some b => b
  | None => false
  end.

(** ** Constants computed on each render (lines 34-47) *)
Record Config : Type := mkConfig {
  useRAF : bool;
  wait : Z;
  leading : bool;
  trailing : bool;
  maxing : bool;
  maxWait : option Z
}.

(** [has_window] is [typeof window !== 'undefined']. *)
Definition useDebouncedCallback
    (wait0 : jsnum) (options0 : option Options) (has_window : bool) : Config :=
  let useRAF := js_not wait0 && js_strict_neq_zero wait0 && has_window in
  let wait := js_number_or_zero wait0 in
  let options := match options0 with Some o => o | None => no_options end in
  let leading := js_truthy_bool (opt_leading options) in
  let trailing :=
    match opt_trailing options with
    | Some v => js_truthy_bool v
    | None => true
    end in
  let maxing := match opt_maxWait options with Some _ => true | None => false end in
  let maxWait :=
    match opt_maxWait options with
    | Some m => Some (Z.max (js_number_or_zero m) wait)
    | None => None
    end in
  {| useRAF := useRAF; wait := wait; leading := leading; trailing := trailing;
     maxing := maxing; maxWait := maxWait |}.

(** ** The refs of the hook (lines 24-31) *)
Record State (A R : Type) : Type := mkState {
  lastCallTime : option Z;
  lastInvokeTime : Z;
  timerId : option positive;
  lastArgs : option (list A);
  result : option R;
  mounted : bool
}.

(** ** The host: clock, timer queue, and the log of target invocations *)
Inductive TimerKind : Type := Timeout | Frame.

Record Timer : Type := mkTimer {
  tm_id : positive;
  tm_kind : TimerKind;
  tm_due : Z
}.

Record World (A R : Type) : Type := mkWorld {
  refs : State A R;
  clock : Z;
  timers : list Timer;
  next_handle : positive;
  invoked : list (Z * list A)
}.

Definition is_kind (k : TimerKind) (tm : Timer) : bool :=
  match k, tm_kind tm with
  | Timeout, Timeout => true
  | Frame, Frame => true
  | _, _ => false
  end.

Definition drop_timer (k : TimerKind) (h : positive) (ts : list Timer) : list Timer :=
  filter (fun tm => negb (is_kind k tm && Pos.eqb (tm_id tm) h)) ts.

Section Host.
Context {A R : Type}.
Local Abbreviation World := (World A R).
Local Abbreviation State := (State A R).

Definition with_refs (s : State) (w : World) : World :=
  {| refs := s; clock := clock w; timers := timers w;
     next_handle := next_handle w; invoked := invoked w |}.

Definition with_timers (ts : list Timer) (w : World) : World :=
  {| refs := refs w; clock := clock w; timers := ts;
     next_handle := next_handle w; invoked := invoked w |}.

Definition with_clock (t : Z) (w : World) : World :=
  {| refs := refs w; clock := t; timers := timers w;
     next_handle := next_handle w; invoked := invoked w |}.

Definition set_lastCallTime (v : option Z) (s : State) : State :=
  {| lastCallTime := v; lastInvokeTime := lastInvokeTime s; timerId := timerId s;
     lastArgs := lastArgs s; result := result s; mounted := mounted s |}.

Definition set_lastInvokeTime (v : Z) (s : State) : State :=
  {| lastCallTime := lastCallTime s; lastInvokeTime := v; timerId := timerId s;
     lastArgs := lastArgs s; result := result s; mounted := mounted s |}.

Definition set_timerId (v : option positive) (s : State) : State :=
  {| lastCallTime := lastCallTime s; lastInvokeTime := lastInvokeTime s; timerId := v;
     lastArgs := lastArgs s; result := result s; mounted := mounted s |}.

Definition set_lastArgs (v : option (list A)) (s : State) : State :=
  {| lastCallTime := lastCallTime s; lastInvokeTime := lastInvokeTime s;
     timerId := timerId s; lastArgs := v; result := result s; mounted := mounted s |}.

Definition set_result (v : option R) (s : State) : State :=
  {| lastCallTime := lastCallTime s; lastInvokeTime := lastInvokeTime s;
     timerId := timerId s; lastArgs := lastArgs s; result := v; mounted := mounted s |}.

Definition set_mounted (v : bool) (s : State) : State :=
  {| lastCallTime := lastCallTime s; lastInvokeTime := lastInvokeTime s;
     timerId := timerId s; lastArgs := lastArgs s; result := result s; mounted := v |}.

(** [Date.now()] *)
Definition Date_now (w : World) : Z := clock w.

(** [setTimeout(timerExpired, delay)]: a negative delay is clamped to 0. *)
Definition setTimeout (delay : Z) (w : World) : positive * World :=
  let h := next_handle w in
  (h, {| refs := refs w; clock := clock w;
         timers := timers w ++ [mkTimer h Timeout (clock w + Z.max 0 delay)];
         next_handle := Pos.succ h; invoked := invoked w |}).

(** [requestAnimationFrame(timerExpired)]: runs on the next frame, which
    is no earlier than the request. *)
Definition requestAnimationFrame (w : World) : positive * World :=
  let h := next_handle w in
  (h, {| refs := refs w; clock := clock w;
         timers := timers w ++ [mkTimer h Frame (clock w)];
         next_handle := Pos.succ h; invoked := invoked w |}).

(** [clearTimeout(id)] and [cancelAnimationFrame(id)]; [null] is ignored. *)
Definition clearTimeout (id : option positive) (w : World) : World :=
  match id with
  | Some h => with_timers (drop_timer Timeout h (timers w)) w
  | None => w
  end.

Definition cancelAnimationFrame (id : option positive) (w : World) : World :=
  match id with
  | Some h => with_timers (drop_timer Frame h (timers w)) w
  | None => w
  end.
End Host.

(** ** The closures of the hook *)
Section Controller.
Context {A R : Type}.
Variable func : list A -> R.
Variable cfg : Config.
Local Abbreviation World := (World A R).
Local Abbreviation State := (State A R).

(** The refs after the first render, the effect having run. *)
Definition initial_refs : State :=
  {| lastCallTime := None; lastInvokeTime := 0; timerId := None;
     lastArgs := Some []; result := None; mounted := true |}.

Definition initial_world (t0 : Z) : World :=
  {| refs := initial_refs; clock := t0; timers := []; next_handle := 1%positive;
     invoked := [] |}.

(** [result.current = funcRef.current.apply(thisArg, args)], the call
    being recorded with the time at which it is made. *)
Definition dispatch (args : list A) (w : World) : R * World :=
  let r := func args in
  (r, {| refs := set_result (Some r) (refs w); clock := clock w; timers := timers w;
         next_handle := next_handle w; invoked := invoked w ++ [(clock w, args)] |}).

(** lines 49-56 *)
Definition invokeFunc (time : Z) (w : World) : R * World :=
  let args := lastArgs (refs w) in
  let w := with_refs (set_lastArgs None (refs w)) w in
  let w := with_refs (set_lastInvokeTime time (refs w)) w in
  dispatch (js_apply_args args) w.

(** lines 58-61; [pendingFunc] is always [timerExpired]. *)
Definition startTimer (delay : Z) (w : World) : World :=
  let w := if useRAF cfg then cancelAnimationFrame (timerId (refs w)) w else w in
  let '(h, w) := if useRAF cfg then requestAnimationFrame w else setTimeout delay w in
  with_refs (set_timerId (Some h) (refs w)) w.

(** lines 63-78 *)
Definition shouldInvoke (time : Z) (s : State) : bool :=
  if negb (mounted s) then false
  else
    let timeSinceLastCall := time - js_to_number (lastCallTime s) in
    let timeSinceLastInvoke := time - lastInvokeTime s in
    js_not_time (lastCallTime s)
    || (wait cfg <=? timeSinceLastCall)
    || (timeSinceLastCall <? 0)
    || (maxing cfg && (js_to_number (maxWait cfg) <=? timeSinceLastInvoke)).

(** lines 80-90 *)
Definition trailingEdge (time : Z) (w : World) : option R * World :=
  let w := with_refs (set_timerId None (refs w)) w in
  if trailing cfg && negb (js_not_ref (lastArgs (refs w))) then
    let '(r, w) := invokeFunc time w in (Some r, w)
  else
    let w := with_refs (set_lastArgs None (refs w)) w in
    (result (refs w), w).

(** lines 98-102 *)
Definition remainingWait (time : Z) (s : State) : Z :=
  let timeSinceLastCall := time - js_to_number (lastCallTime s) in
  let timeSinceLastInvoke := time - lastInvokeTime s in
  let timeWaiting := wait cfg - timeSinceLastCall in
  if maxing cfg
  then Z.min timeWaiting (js_to_number (maxWait cfg) - timeSinceLastInvoke)
  else timeWaiting.

(** lines 92-106; [None] is the [undefined] of the path that restarts. *)
Definition timerExpired (w : World) : option R * World :=
  let time := Date_now w in
  if shouldInvoke time (refs w) then trailingEdge time w
  else (None, startTimer (remainingWait time (refs w)) w).

(** lines 108-114 *)
Definition cancel (w : World) : World :=
  let w :=
    if negb (js_not_ref (timerId (refs w))) then
      if useRAF cfg then cancelAnimationFrame (timerId (refs w)) w
      else clearTimeout (timerId (refs w)) w
    else w in
  let w := with_refs (set_lastInvokeTime 0 (refs w)) w in
  let w := with_refs (set_timerId None (refs w)) w in
  let w := with_refs (set_lastCallTime None (refs w)) w in
  with_refs (set_lastArgs None (refs w)) w.

(** lines 116-118 *)
Definition flush (w : World) : option R * World :=
  if js_not_ref (timerId (refs w)) then (result (refs w), w)
  else trailingEdge (Date_now w) w.

(** The cleanup of the effect, lines 122-124. *)
Definition unmount (w : World) : World :=
  with_refs (set_mounted false (refs w)) w.

(** lines 127-154 *)
Definition debounced (args : list A) (w : World) : option R * World :=
  let time := Date_now w in
  let isInvoking := shouldInvoke time (refs w) in
  let w := with_refs (set_lastArgs (Some args) (refs w)) w in
  let w := with_refs (set_lastCallTime (Some time) (refs w)) w in
  if isInvoking && js_not_ref (timerId (refs w)) && mounted (refs w) then
    let w := with_refs (set_lastInvokeTime time (refs w)) w in
    let w := startTimer (wait cfg) w in
    if leading cfg then let '(r, w) := invokeFunc time w in (Some r, w)
    else (result (refs w), w)
  else if isInvoking && maxing cfg then
    let w := startTimer (wait cfg) w in
    let '(r, w) := invokeFunc time w in (Some r, w)
  else
    let w := if js_not_ref (timerId (refs w)) then startTimer (wait cfg) w else w in
    (result (refs w), w).

(** lines 156-158 *)
Definition pending (w : World) : bool := negb (js_not_ref (timerId (refs w))).

(** ** The event loop

    The host runs a timer at the instant it falls due; among the live
    timers the earliest goes first, and of two with the same instant the
    one that was scheduled first.  A timer that fires leaves the queue
    before its callback runs. *)
Fixpoint earliest (ts : list Timer) : option Timer :=
  match ts with
  | [] => None
  | tm :: rest =>
      match earliest rest with
      | Some m => if tm_due m <? tm_due tm then Some m else Some tm
      | None => Some tm
      end
  end.

Definition falls_due (until : option Z) (tm : Timer) : bool :=
  match until with
  | Some t => tm_due tm <=? t
  | None => true
  end.

Definition next_timer (until : option Z) (ts : list Timer) : option Timer :=
  match earliest ts with
  | Some tm => if falls_due until tm then Some tm else None
  | None => None
  end.

Definition fire (tm : Timer) (w : World) : World :=
  let w := with_timers (drop_timer (tm_kind tm) (tm_id tm) (timers w)) w in
  let w := with_clock (Z.max (clock w) (tm_due tm)) w in
  snd (timerExpired w).

(** Runs the timers that fall due up to [until] ([None]: until the queue
    is empty).  [None] as a result: the queue did not quiesce within
    [fuel] expirations. *)
Fixpoint run_timers (fuel : nat) (until : option Z) (w : World) : option World :=
  match next_timer until (timers w) with
  | None => Some w
  | Some tm =>
      match fuel with
      | O => None
      | S fuel' => run_timers fuel' until (fire tm w)
      end
  end.

(** A call of the debounced function at clock reading [t]: the timers due
    by then have run. *)
Definition call_at (fuel : nat) (t : Z) (args : list A) (w : World) : option World :=
  match run_timers fuel (Some t) w with
  | Some w => Some (snd (debounced args (with_clock (Z.max (clock w) t) w)))
  | None => None
  end.

Fixpoint run_calls (fuel : nat) (calls : list (Z * list A)) (w : World) : option World :=
  match calls with
  | [] => Some w
  | (t, args) :: rest =>
      match call_at fuel t args w with
      | Some w => run_calls fuel rest w
      | None => None
      end
  end.

(** The calls, then the timers left until none is. *)
Definition run_to_rest (fuel : nat) (calls : list (Z * list A)) (w : World) : option World :=
  match run_calls fuel calls w with
  | Some w => run_timers fuel None w
  | None => None
  end.
End Controller.

(** ** What the specification says [shouldInvoke] computes

    Written from the four cases of the specification (and of the comment
    above the [return] of [shouldInvoke]): the controller is enabled and
    (a) no call has been recorded, (b) the last call is at least [wait]
    old, (c) the clock went backwards, or (d) [maxWait] is configured and
    the last invocation is at least [maxWait] old. *)
Definition shouldInvoke_spec {A R : Type} (cfg : Config) (now : Z) (s : State A R) : bool :=
  mounted s &&
  (match lastCallTime s with
   | None => true
   | Some called => (wait cfg <=? now - called) || (now - called <? 0)
   end
   || match maxWait cfg with
      | Some m => m <=? now - lastInvokeTime s
      | None => false
      end).

(** The kind of timer a configuration schedules. *)
Definition timer_kind (cfg : Config) : TimerKind :=
  if useRAF cfg then Frame else Timeout.

(** ** Call streams *)

(** Each call comes no earlier than the one before and less than [w] after it. *)
Fixpoint spaced {A : Type} (w : Z) (prev : Z) (calls : list (Z * list A)) : Prop :=
  match calls with
  | [] => True
  | (t, _) :: rest => prev <= t < prev + w /\ spaced w t rest
  end.

(** Every two neighbours of a list of instants are at most [b] apart. *)
Fixpoint gaps_le (b : Z) (ts : list Z) : Prop :=
  match ts with
  | [] => True
  | t :: rest =>
      match rest with
      | [] => True
      | t' :: _ => t' - t <= b
      end /\ gaps_le b rest
  end.

(** ** Invariants of the runs studied below *)

(** Nothing is pending: the controller is enabled, holds no handle, and no
    timer is live. *)
Definition idle {A R : Type} (w : World A R) : Prop :=
  mounted (refs w) = true /\ timerId (refs w) = None /\ timers w = [].

(** A burst under way with only the trailing edge on: the call at [c], with
    arguments [a], is the last one; exactly one timeout is live, the one the
    controller holds, due [wait] after the call at [c0]; nothing has run
    since [log]. *)
Definition armed {A R : Type} (cfg : Config) (log : list (Z * list A))
    (c c0 : Z) (a : list A) (w : World A R) : Prop :=
  exists h L res nh,
    w = mkWorld (mkState (Some c) L (Some h) (Some a) res true) c
          [mkTimer h Timeout (c0 + wait cfg)] nh log /\
    0 <= c0 <= c /\ c <= c0 + wait cfg.

(** A stream of calls under way with [maxWait] configured.  [W] is [wait],
    [B] the bound on the gaps between invocations, [t1] the instant of the
    first call.  Every live timer is a timeout that is not overdue and falls
    due at most [B] after the last invocation; the controller holds a handle
    only while a timer is live; and held arguments are absent only when the
    last invocation is not older than the last call. *)
Definition ceiling_inv {A R : Type} (W B t1 : Z) (w : World A R) : Prop :=
  exists c,
    mounted (refs w) = true /\
    lastCallTime (refs w) = Some c /\
    0 <= c <= clock w /\
    lastInvokeTime (refs w) <= clock w /\
    Forall (fun tm => tm_kind tm = Timeout /\ clock w <= tm_due tm /\ W <= tm_due tm /\
                      tm_due tm <= lastInvokeTime (refs w) + B) (timers w) /\
    (timerId (refs w) <> None -> timers w <> []) /\
    (timerId (refs w) = None -> 0 < c /\ lastArgs (refs w) = None) /\
    (lastArgs (refs w) = None -> c <= lastInvokeTime (refs w)) /\
    gaps_le B (map fst (invoked w)) /\
    last (map fst (invoked w)) t1 = lastInvokeTime (refs w).

(** How many milliseconds, over all timers, the queue is behind instant [t]:
    the measure that bounds the expirations needed to catch up. *)
Fixpoint lateness (t : Z) (ts : list Timer) : nat :=
  match ts with
  | [] => O
  | tm :: rest => (Z.to_nat (t + 1 - tm_due tm) + lateness t rest)%nat
  end.

(** ** Further invariants *)

(** The value of the last call recorded in the log, if any. *)
Definition last_result {A R : Type} (func : list A -> R) (log : list (Z * list A)) : option R :=
  match rev log with
  | [] => None
  | (_, args) :: _ => Some (func args)
  end.

(** The cached result is the value of the last invocation. *)
Definition result_is_last {A R : Type} (func : list A -> R) (w : World A R) : Prop :=
  result (refs w) = last_result func (invoked w).

(** Enabled, with no call, no arguments and no handle held: the refs right
    after [cancel]. *)
Definition quiet {A R : Type} (w : World A R) : Prop :=
  mounted (refs w) = true /\ lastCallTime (refs w) = None /\
  lastArgs (refs w) = None /\ timerId (refs w) = None.

(** The queue holds exactly the timer whose handle the controller holds, of
    the kind the configuration schedules, or nothing when it holds none. *)
Definition tracked {A R : Type} (cfg : Config) (w : World A R) : Prop :=
  match timerId (refs w), timers w with
  | None, [] => True
  | Some h, [tm] => tm_id tm = h /\ tm_kind tm = timer_kind cfg
  | _, _ => False
  end.

(** As [armed], whatever arguments are held. *)
Definition in_burst {A R : Type} (cfg : Config) (log : list (Z * list A))
    (c c0 : Z) (held : option (list A)) (w : World A R) : Prop :=
  exists h L res nh,
    w = mkWorld (mkState (Some c) L (Some h) held res true) c
          [mkTimer h Timeout (c0 + wait cfg)] nh log /\
    0 <= c0 <= c /\ c <= c0 + wait cfg.

(** Nothing is pending and the last call, if any, is at least [W] old. *)
Definition rested {A R : Type} (W : Z) (w : World A R) : Prop :=
  idle w /\
  match lastCallTime (refs w) with
  | None => True
  | Some c => c + W <= clock w
  end.

(** What the trailing edge at instant [t] adds to the log. *)
Definition trailing_run {A : Type} (cfg : Config) (t : Z) (held : option (list A))
  : list (Z * list A) :=
  match held with
  | Some args => if trailing cfg then [(t, args)] else []
  | None => []
  end.

(** ** Runs of operations

    What a consumer and the host can do to a controller, in any order: call
    it at a clock reading, let the next timer of the queue expire (late or
    not), flush, cancel, tear down. *)
Inductive Op (A : Type) : Type :=
| OpCall (t : Z) (args : list A)
| OpExpire
| OpFlush
| OpCancel
| OpUnmount.
Arguments OpExpire {A}.
Arguments OpFlush {A}.
Arguments OpCancel {A}.
Arguments OpUnmount {A}.

Definition apply_op {A R : Type} (func : list A -> R) (cfg : Config)
    (op : Op A) (w : World A R) : World A R :=
  match op with
  | OpCall t args => snd (debounced func cfg args (with_clock (Z.max (clock w) t) w))
  | OpExpire =>
      match next_timer None (timers w) with
      | Some tm => fire func cfg tm w
      | None => w
      end
  | OpFlush => snd (flush func cfg w)
  | OpCancel => cancel cfg w
  | OpUnmount => unmount w
  end.

Definition run_ops {A R : Type} (func : list A -> R) (cfg : Config)
    (ops : list (Op A)) (w : World A R) : World A R :=
  fold_left (fun w op => apply_op func cfg op w) ops w.

Definition is_flush {A : Type} (op : Op A) : bool :=
  match op with
  | OpFlush => true
  | _ => false
  end.

(** No operation of the run is a flush. *)
Definition flush_free {A : Type} (ops : list (Op A)) : bool :=
  forallb (fun op => negb (is_flush op)) ops.

(** ** A target function and configurations to run the model on *)
Definition join_args (args : list string) : string := String.concat ","%string args.

Definition cfg_default_100 : Config := useDebouncedCallback (JNum 100) None true.

Definition cfg_max_150 : Config :=
  useDebouncedCallback (JNum 100)
    (Some {| opt_maxWait := Some (JNum 150); opt_leading := None; opt_trailing := None |})
    true.

Definition cfg_both_edges (wait0 : jsnum) (maxw : option jsnum) (has_window : bool) : Config :=
  useDebouncedCallback wait0
    (Some {| opt_maxWait := maxw; opt_leading := Some true;
             opt_trailing := Some (Some true) |})
    has_window.

(** * Properties *)

(** Reduction that leaves integer arithmetic and the queue operations folded. *)
Ltac zred :=
  cbn -[Z.add Z.sub Z.mul Z.leb Z.ltb Z.eqb Z.max Z.min Z.to_nat drop_timer lateness].
Ltac zred_all :=
  cbn -[Z.add Z.sub Z.mul Z.leb Z.ltb Z.eqb Z.max Z.min Z.to_nat drop_timer lateness] in *.

(** Opens a world into its fields. *)
Ltac split_world w :=
  let lc := fresh "lc" in let L := fresh "L" in let tid := fresh "tid" in
  let la := fresh "la" in let res := fresh "res" in let m := fresh "m" in
  let clk := fresh "clk" in let ts := fresh "ts" in let nh := fresh "nh" in
  let log := fresh "log" in
  destruct w as [[lc L tid la res m] clk ts nh log].

(** ** The event loop *)

(** With no timer due the loop stops at once, whatever the fuel. *)
Lemma run_timers_quiet {A R : Type} (func : list A -> R) (cfg : Config)
    (fuel : nat) (until : option Z) (w : World A R) :
  next_timer until (timers w) = None -> run_timers func cfg fuel until w = Some w.
Proof. intros H. destruct fuel; simpl; rewrite H; reflexivity. Qed.

(** With a timer due and fuel left, the loop fires it and goes on. *)
Lemma run_timers_step {A R : Type} (func : list A -> R) (cfg : Config)
    (fuel : nat) (until : option Z) (w : World A R) (tm : Timer) :
  next_timer until (timers w) = Some tm ->
  run_timers func cfg (S fuel) until w = run_timers func cfg fuel until (fire func cfg tm w).
Proof. intros H. simpl. rewrite H. reflexivity. Qed.

(** The last element of a non-empty list does not depend on the default. *)
Lemma last_cons {X : Type} (l : list X) : forall x d : X, last (x :: l) d = last l x.
Proof.
  induction l as [|y l IH]; intros x d; [reflexivity|].
  change (last (x :: y :: l) d) with (last (y :: l) d).
  rewrite (IH y d), (IH y x). reflexivity.
Qed.

(** ** A burst with only the trailing edge

    [setTimeout] scheduling, [leading] off, [trailing] on, no [maxWait]. *)
Section TrailingOnly.
Context {A R : Type} (func : list A -> R) (cfg : Config).
Hypothesis Hraf : useRAF cfg = false.
Hypothesis Hlead : leading cfg = false.
Hypothesis Htrail : trailing cfg = true.
Hypothesis Hmax : maxing cfg = false.
Hypothesis Hwait : 0 <= wait cfg.

(** A call that finds a timer scheduled only records its arguments and its
    time. *)
Lemma debounced_while_pending (args : list A) (w : World A R) (h : positive) :
  timerId (refs w) = Some h ->
  debounced func cfg args w =
  (result (refs w),
   with_refs (set_lastCallTime (Some (clock w)) (set_lastArgs (Some args) (refs w))) w).
Proof.
  intros Hh. unfold debounced, Date_now.
  destruct (shouldInvoke cfg (clock w) (refs w)); cbn; rewrite Hh, ?Hmax; cbn;
    destruct w; reflexivity.
Qed.

(** The only live timer expires less than [wait] after the last call: it is
    restarted so as to fall due [wait] after that call. *)
Lemma fire_too_early (s : State A R) (clk : Z) (tm : Timer) (nh : positive)
    (log : list (Z * list A)) (c : Z) :
  tm_kind tm = Timeout ->
  lastCallTime s = Some c -> mounted s = true ->
  c <> 0 -> clk <= tm_due tm -> c <= tm_due tm < c + wait cfg ->
  fire func cfg tm (mkWorld s clk [tm] nh log) =
  mkWorld (set_timerId (Some nh) s) (tm_due tm) [mkTimer nh Timeout (c + wait cfg)]
    (Pos.succ nh) log.
Proof.
  intros Hk Hc Hm Hz Hclk Hd.
  unfold fire, timerExpired, shouldInvoke, Date_now, drop_timer, is_kind.
  zred.
  rewrite Hk, Pos.eqb_refl, Hc, Hm, Hmax. rewrite Z.max_r by lia.
  zred.
  replace (c =? 0) with false by (symmetry; apply Z.eqb_neq; lia).
  replace (wait cfg <=? tm_due tm - c) with false by (symmetry; apply Z.leb_gt; lia).
  replace (tm_due tm - c <? 0) with false by (symmetry; apply Z.ltb_ge; lia).
  zred.
  unfold startTimer, remainingWait, setTimeout.
  rewrite Hraf, Hmax, Hc.
  zred.
  replace (tm_due tm + Z.max 0 (wait cfg - (tm_due tm - c))) with (c + wait cfg) by lia.
  reflexivity.
Qed.

(** The only live timer expires [wait] after the last call: the target runs
    on the held arguments and the queue is empty. *)
Lemma fire_on_time (s : State A R) (clk : Z) (tm : Timer) (nh : positive)
    (log : list (Z * list A)) (c : Z) (a : list A) :
  tm_kind tm = Timeout ->
  lastCallTime s = Some c -> mounted s = true -> lastArgs s = Some a ->
  clk <= tm_due tm -> tm_due tm = c + wait cfg ->
  fire func cfg tm (mkWorld s clk [tm] nh log) =
  mkWorld (set_result (Some (func a))
             (set_lastInvokeTime (tm_due tm) (set_lastArgs None (set_timerId None s))))
    (tm_due tm) [] nh (log ++ [(tm_due tm, a)]).
Proof.
  intros Hk Hc Hm Ha Hclk Hd.
  unfold fire, timerExpired, shouldInvoke, Date_now, drop_timer, is_kind.
  zred.
  rewrite Hk, Pos.eqb_refl, Hc, Hm, Hmax, Z.max_r by lia.
  zred.
  replace (wait cfg <=? tm_due tm - c) with true by (symmetry; apply Z.leb_le; lia).
  rewrite orb_true_r. zred.
  unfold trailingEdge, invokeFunc, dispatch.
  zred.
  rewrite Htrail, Ha. reflexivity.
Qed.

(** One more call of the burst: at most one expiration comes before it. *)
Lemma call_armed log c c0 a w t a' fuel :
  armed cfg log c c0 a w -> c <= t < c + wait cfg -> (1 <= fuel)%nat ->
  exists c0' w', call_at func cfg fuel t a' w = Some w' /\ armed cfg log t c0' a' w'.
Proof.
  intros (h & L & res & nh & -> & Hc0 & Hc) Ht Hf.
  destruct fuel as [|fuel]; [lia|].
  unfold call_at.
  destruct (c0 + wait cfg <=? t) eqn:Edue.
  - rewrite run_timers_step with (tm := mkTimer h Timeout (c0 + wait cfg))
      by (cbn; rewrite Edue; reflexivity).
    apply Z.leb_le in Edue.
    rewrite fire_too_early with (c := c) by (cbn; try reflexivity; lia).
    rewrite run_timers_quiet
      by (cbn; replace (c + wait cfg <=? t) with false
            by (symmetry; apply Z.leb_gt; lia); reflexivity).
    rewrite debounced_while_pending with (h := nh) by reflexivity.
    cbn. rewrite Z.max_r by lia.
    exists c. eexists. split; [reflexivity|].
    do 4 eexists. split; [reflexivity|]. lia.
  - rewrite run_timers_quiet by (cbn; rewrite Edue; reflexivity).
    apply Z.leb_gt in Edue.
    rewrite debounced_while_pending with (h := h) by reflexivity.
    cbn. rewrite Z.max_r by lia.
    exists c0. eexists. split; [reflexivity|].
    do 4 eexists. split; [reflexivity|]. lia.
Qed.

(** After the last call of the burst, at most two expirations lead to the
    single invocation. *)
Lemma settle_armed log c c0 a w fuel :
  armed cfg log c c0 a w -> (2 <= fuel)%nat ->
  exists w', run_timers func cfg fuel None w = Some w' /\
             invoked w' = log ++ [(c + wait cfg, a)] /\ idle w'.
Proof.
  intros (h & L & res & nh & -> & Hc0 & Hc) Hf.
  destruct fuel as [|[|fuel]]; try lia.
  rewrite run_timers_step with (tm := mkTimer h Timeout (c0 + wait cfg)) by reflexivity.
  destruct (Z.eq_dec c0 c) as [->|Hne].
  - rewrite fire_on_time with (c := c) (a := a) by (cbn; try reflexivity; lia).
    rewrite run_timers_quiet by reflexivity.
    eexists. split; [reflexivity|]. cbn. repeat split.
  - rewrite fire_too_early with (c := c) by (cbn; try reflexivity; lia).
    rewrite run_timers_step with (tm := mkTimer nh Timeout (c + wait cfg)) by reflexivity.
    rewrite fire_on_time with (c := c) (a := a) by (cbn; try reflexivity; lia).
    rewrite run_timers_quiet by reflexivity.
    eexists. split; [reflexivity|]. cbn. repeat split.
Qed.

(** The first call of a burst, made when nothing is pending, schedules the
    timer. *)
Lemma first_call_arms (w0 : World A R) t a fuel :
  idle w0 -> 0 <= t -> clock w0 <= t ->
  exists w', call_at func cfg fuel t a w0 = Some w' /\ armed cfg (invoked w0) t t a w'.
Proof.
  destruct w0 as [[lc L tid la res m] clk ts nh log].
  intros (Hm & Hid & Hts) Ht Hclk. zred_all. subst m tid ts.
  unfold call_at. rewrite run_timers_quiet by reflexivity.
  unfold debounced.
  match goal with
  | |- context [shouldInvoke cfg ?now ?s] => destruct (shouldInvoke cfg now s)
  end;
    unfold startTimer, setTimeout, Date_now; rewrite Hraf, ?Hlead, ?Hmax; zred;
    rewrite (Z.max_r clk t), (Z.max_r 0 (wait cfg)) by lia;
    (eexists; split; [reflexivity|]; do 4 eexists; split; [reflexivity|]; lia).
Qed.

(** The calls of a burst, one after the other. *)
Lemma burst_armed log rest : forall c c0 a w fuel,
  armed cfg log c c0 a w -> spaced (wait cfg) c rest -> (1 <= fuel)%nat ->
  exists c0' w',
    run_calls func cfg fuel rest w = Some w' /\
    armed cfg log (fst (last rest (c, a))) c0' (snd (last rest (c, a))) w'.
Proof.
  induction rest as [|[t a'] rest IH]; intros c c0 a w fuel Hw Hs Hf.
  - exists c0, w. split; [reflexivity|exact Hw].
  - destruct Hs as [Ht Hs].
    destruct (call_armed a' Hw Ht Hf) as (c1 & w1 & E1 & Hw1).
    destruct (IH t c1 a' w1 fuel Hw1 Hs Hf) as (c2 & w2 & E2 & Hw2).
    exists c2, w2. split.
    + cbn [run_calls]. rewrite E1. exact E2.
    + rewrite last_cons. exact Hw2.
Qed.
End TrailingOnly.

(** C1.  Default options and [wait = W]: whenever nothing is pending, a
    burst of calls each less than [W] after the one before, the timers
    running when due, makes the target run exactly once, [W] after the last
    call of the burst and on that call's arguments; then again nothing is
    pending.  Two expirations per stretch between calls are all the loop
    ever needs. *)
Theorem trailing_burst_fires_once {A R : Type} (func : list A -> R)
    (W : Z) (has_window : bool) (w0 : World A R)
    (t1 : Z) (a1 : list A) (rest : list (Z * list A)) (fuel : nat)
    (Hwait : 0 <= W) (Hidle : idle w0) (Hstart : 0 <= t1 /\ clock w0 <= t1)
    (Hburst : spaced W t1 rest) (Hfuel : (2 <= fuel)%nat) :
  let cfg := useDebouncedCallback (JNum W) None has_window in
  let final := last rest (t1, a1) in
  exists w,
    run_to_rest func cfg fuel ((t1, a1) :: rest) w0 = Some w /\
    invoked w = invoked w0 ++ [(fst final + W, snd final)] /\
    idle w.
Proof.
  intros cfg final.
  assert (Hraf : useRAF cfg = false).
  { unfold cfg, useDebouncedCallback. cbn. destruct (W =? 0); reflexivity. }
  destruct (@first_call_arms A R func cfg Hraf eq_refl eq_refl Hwait w0 t1 a1 fuel Hidle
              (proj1 Hstart) (proj2 Hstart))
    as (w1 & E1 & Hw1).
  destruct (@burst_armed A R func cfg Hraf eq_refl (invoked w0) rest t1 t1 a1 w1 fuel
              Hw1 Hburst)
    as (c0 & w2 & E2 & Hw2); [lia|].
  destruct (@settle_armed A R func cfg Hraf eq_refl eq_refl Hwait (invoked w0) _ _ _ w2 fuel
              Hw2 Hfuel)
    as (w3 & E3 & Hlog & Hidle3).
  exists w3. unfold run_to_rest. cbn [run_calls]. rewrite E1, E2.
  split; [exact E3|]. split; [exact Hlog|exact Hidle3].
Qed.

(** The scenario of the specification: [wait = 100], calls at 0, 30 and 60. *)
Lemma trailing_burst_fires_once_witness :
  exists w,
    run_to_rest join_args cfg_default_100 2
      [(0, ["a"]); (30, ["b"]); (60, ["c"])]%string (initial_world 0) = Some w /\
    invoked w = [(160, ["c"%string])] /\
    idle w.
Proof.
  refine (@trailing_burst_fires_once _ _ join_args 100 true (initial_world 0) 0
            ["a"%string] [(30, ["b"]); (60, ["c"])]%string 2%nat _ _ _ _ _).
  - lia.
  - repeat split.
  - cbn. lia.
  - cbn. lia.
  - apply le_n.
Defined.

(** ** The timer queue *)

(** [earliest] picks a member of the queue that no other member precedes. *)
Lemma earliest_spec (ts : list Timer) :
  match earliest ts with
  | Some tm => In tm ts /\ Forall (fun x => tm_due tm <= tm_due x) ts
  | None => ts = []
  end.
Proof.
  induction ts as [|x ts IH]; [reflexivity|]. cbn [earliest].
  destruct (earliest ts) as [m|].
  - destruct IH as [Hin Hall]. destruct (tm_due m <? tm_due x) eqn:E.
    + apply Z.ltb_lt in E. split; [now right|]. constructor; [lia|exact Hall].
    + apply Z.ltb_ge in E. split; [now left|]. constructor; [lia|].
      eapply Forall_impl; [|exact Hall]. cbn. intros; lia.
  - subst ts. split; [now left|]. constructor; [lia|constructor].
Qed.

(** The timer that runs next is in the queue, is due, and is the earliest. *)
Lemma next_timer_some (t : Z) (ts : list Timer) (tm : Timer) :
  next_timer (Some t) ts = Some tm ->
  In tm ts /\ tm_due tm <= t /\ Forall (fun x => tm_due tm <= tm_due x) ts.
Proof.
  unfold next_timer. pose proof (earliest_spec ts) as H.
  destruct (earliest ts) as [m|]; [|discriminate].
  cbn [falls_due]. destruct (tm_due m <=? t) eqn:E; [|discriminate].
  intros [= <-]. apply Z.leb_le in E. tauto.
Qed.

(** When no timer runs, every live one is due later. *)
Lemma next_timer_none (t : Z) (ts : list Timer) :
  next_timer (Some t) ts = None -> Forall (fun x => t < tm_due x) ts.
Proof.
  unfold next_timer. pose proof (earliest_spec ts) as H.
  destruct (earliest ts) as [m|].
  - cbn [falls_due]. destruct (tm_due m <=? t) eqn:E; [discriminate|].
    apply Z.leb_gt in E. intros _. destruct H as [_ H].
    eapply Forall_impl; [|exact H]. cbn. intros; lia.
  - subst ts. constructor.
Qed.

(** What holds of all timers holds of those left after a removal. *)
Lemma drop_timer_Forall (P : Timer -> Prop) k h ts :
  Forall P ts -> Forall P (drop_timer k h ts).
Proof.
  unfold drop_timer. induction 1 as [|x l Hx Hl IH]; cbn; [constructor|].
  destruct (negb _); [constructor; assumption|assumption].
Qed.

(** [lateness] of a concatenation. *)
Lemma lateness_app t ts us : lateness t (ts ++ us) = (lateness t ts + lateness t us)%nat.
Proof. induction ts as [|x ts IH]; cbn [lateness app]; [reflexivity|]. rewrite IH. lia. Qed.

(** Removing a timer removes its share of the lateness. *)
Lemma lateness_drop t tm ts :
  In tm ts -> tm_kind tm = Timeout ->
  (lateness t (drop_timer Timeout (tm_id tm) ts) + Z.to_nat (t + 1 - tm_due tm)
   <= lateness t ts)%nat.
Proof.
  intros Hin Hk. unfold drop_timer. induction ts as [|x ts IH]; [destruct Hin|].
  cbn [filter lateness].
  destruct Hin as [->|Hin].
  - unfold is_kind at 1. rewrite Hk, Pos.eqb_refl. cbn [andb negb].
    clear IH. induction ts as [|y ts IH]; cbn [filter lateness]; [lia|].
    destruct (negb _); cbn [lateness]; lia.
  - specialize (IH Hin). destruct (negb _); cbn [lateness]; lia.
Qed.

(** A queue with no lateness has no timer due. *)
Lemma lateness_zero t ts : lateness t ts = O -> Forall (fun x => t < tm_due x) ts.
Proof.
  induction ts as [|x ts IH]; cbn [lateness]; [constructor|].
  intros H. constructor; [lia|apply IH; lia].
Qed.

(** One more instant at the end of a list with bounded gaps. *)
Lemma gaps_le_snoc b ts x d :
  gaps_le b ts -> x - last ts d <= b -> gaps_le b (ts ++ [x]).
Proof.
  revert d. induction ts as [|y ts IH]; intros d Hg Hx; [cbn; tauto|].
  destruct Hg as [Hy Hg]. rewrite last_cons in Hx.
  destruct ts as [|z ts].
  - cbn in *. split; [lia|tauto].
  - cbn [app gaps_le] in *. split; [exact Hy|]. apply (IH y); assumption.
Qed.

(** More fuel does not change what the loop computes. *)
Lemma run_timers_more_fuel {A R : Type} (func : list A -> R) (cfg : Config)
    (until : option Z) : forall (n n' : nat) (w w' : World A R),
  run_timers func cfg n until w = Some w' -> (n <= n')%nat ->
  run_timers func cfg n' until w = Some w'.
Proof.
  induction n as [|n IH]; intros n' w w' Hrun Hle;
    destruct (next_timer until (timers w)) as [tm|] eqn:E.
  - cbn in Hrun. rewrite E in Hrun. discriminate.
  - rewrite run_timers_quiet in * by exact E. exact Hrun.
  - destruct n' as [|n']; [lia|].
    rewrite run_timers_step with (tm := tm) in * by exact E.
    apply IH with (1 := Hrun). lia.
  - rewrite run_timers_quiet in * by exact E. exact Hrun.
Qed.

(** ** A stream of calls under a [maxWait] ceiling

    [setTimeout] scheduling, [trailing] on, [maxWait = M] with
    [0 < wait <= M]; [leading] is free. *)
Section Ceiling.
Context {A R : Type} (func : list A -> R) (cfg : Config).
Variables (M t1 : Z).
Hypothesis Hraf : useRAF cfg = false.
Hypothesis Htrail : trailing cfg = true.
Hypothesis Hmaxing : maxing cfg = true.
Hypothesis HmaxWait : maxWait cfg = Some M.
Hypothesis HW : 0 < wait cfg.
Hypothesis HM : wait cfg <= M.

Local Abbreviation B := (Z.max M (2 * wait cfg)).
Local Abbreviation Inv := (ceiling_inv (A := A) (R := R) (wait cfg) B t1).

(** An expiration of the earliest due timer, before the next call of the
    stream, keeps the invariant, leaves the call time alone and brings the
    queue closer to instant [t]. *)
Lemma fire_ceiling (w : World A R) (tm : Timer) (t c : Z) :
  Inv w ->
  In tm (timers w) ->
  Forall (fun x => tm_due tm <= tm_due x) (timers w) ->
  lastCallTime (refs w) = Some c ->
  tm_due tm <= t < c + wait cfg ->
  Inv (fire func cfg tm w) /\
  lastCallTime (refs (fire func cfg tm w)) = Some c /\
  clock (fire func cfg tm w) = tm_due tm /\
  (lateness t (timers (fire func cfg tm w)) < lateness t (timers w))%nat.
Proof.
  destruct w as [[lc L tid la res m] clk ts nh log].
  intros (c' & Hm & Hlc & Hc & HL & Hts & Hid & Hnone & Hargs & Hgaps & Hlast) Hin Hmin Hc' Hdue.
  zred_all. subst m lc. injection Hc' as ->.
  pose proof (proj1 (Forall_forall _ _) Hts tm Hin) as (Hk & Hclk & HWd & HB).
  pose proof (lateness_drop t tm ts Hin Hk) as Hlate.
  unfold fire, timerExpired, shouldInvoke, Date_now. zred.
  rewrite Hk, Hmaxing, HmaxWait, (Z.max_r clk (tm_due tm)) by lia. zred.
  replace (c =? 0) with false by (symmetry; apply Z.eqb_neq; lia).
  replace (wait cfg <=? tm_due tm - c) with false by (symmetry; apply Z.leb_gt; lia).
  replace (tm_due tm - c <? 0) with false by (symmetry; apply Z.ltb_ge; lia).
  zred.
  assert (Hrest : forall L', L <= L' ->
            Forall (fun x => tm_kind x = Timeout /\ tm_due tm <= tm_due x /\
                             wait cfg <= tm_due x /\ tm_due x <= L' + B)
                   (drop_timer Timeout (tm_id tm) ts)).
  { intros L' HL'. apply drop_timer_Forall.
    eapply Forall_impl; [|exact (Forall_and Hts Hmin)].
    zred. intros x [(? & ? & ? & ?) ?]. repeat split; try assumption; lia. }
  destruct (M <=? tm_due tm - L) eqn:EM.
  - apply Z.leb_le in EM. unfold trailingEdge, invokeFunc, dispatch. zred.
    rewrite Htrail. destruct la as [a|]; zred.
    + split; [|split; [reflexivity|split; [reflexivity|lia]]].
      exists c. zred. repeat split; try lia; try congruence.
      * apply Hrest. lia.
      * rewrite map_app. apply gaps_le_snoc with (d := t1); [exact Hgaps|]. zred. lia.
      * rewrite map_app. apply last_last.
    + split; [|split; [reflexivity|split; [reflexivity|lia]]].
      exists c. zred. repeat split; try lia; try congruence; try tauto.
      * apply Hrest. lia.
  - apply Z.leb_gt in EM. unfold startTimer, remainingWait, setTimeout.
    rewrite Hraf, Hmaxing, HmaxWait. zred.
    split; [|split; [reflexivity|split; [reflexivity|]]].
    + exists c. zred. repeat split; try lia; try congruence; try tauto.
      * apply Forall_app. split.
        -- eapply Forall_impl; [|apply (Hrest L); lia]. zred. intros x (?&?&?&?).
           repeat split; try assumption; lia.
        -- constructor; [|constructor]. zred. repeat split; lia.
      * intros _ E. destruct (drop_timer Timeout (tm_id tm) ts); discriminate E.
    + rewrite lateness_app. cbn [lateness tm_due]. lia.
Qed.

(** The loop catches up with instant [t] within [lateness] expirations. *)
Lemma run_timers_ceiling (t c : Z) : forall (n : nat) (w : World A R),
  Inv w -> lastCallTime (refs w) = Some c -> clock w <= t -> t < c + wait cfg ->
  (lateness t (timers w) <= n)%nat ->
  exists w',
    run_timers func cfg n (Some t) w = Some w' /\
    Inv w' /\ lastCallTime (refs w') = Some c /\ clock w' <= t /\
    Forall (fun x => t < tm_due x) (timers w').
Proof.
  induction n as [|n IH]; intros w Hinv Hc Hclk Ht Hn;
    destruct (next_timer (Some t) (timers w)) as [tm|] eqn:E.
  - apply next_timer_some in E. destruct E as (Hin & Hdue & _).
    assert (Hz : lateness t (timers w) = O) by lia.
    apply lateness_zero in Hz.
    pose proof (proj1 (Forall_forall _ _) Hz tm Hin) as Hlt. cbv beta in Hlt. lia.
  - exists w. rewrite run_timers_quiet by exact E.
    repeat split; try assumption. now apply next_timer_none.
  - rewrite run_timers_step with (tm := tm) by exact E.
    apply next_timer_some in E. destruct E as (Hin & Hdue & Hmin).
    destruct (@fire_ceiling w tm t c Hinv Hin Hmin Hc (conj Hdue Ht))
      as (Hinv' & Hc' & Hclk' & Hlt).
    apply IH; try assumption; lia.
  - exists w. rewrite run_timers_quiet by exact E.
    repeat split; try assumption. now apply next_timer_none.
Qed.

(** A call of the stream, the due timers having run, keeps the invariant. *)
Lemma debounced_ceiling (args : list A) (w : World A R) (t c : Z) :
  Inv w -> lastCallTime (refs w) = Some c -> c <= t < c + wait cfg -> clock w <= t ->
  Forall (fun x => t < tm_due x) (timers w) ->
  let w' := snd (debounced func cfg args (with_clock (Z.max (clock w) t) w)) in
  Inv w' /\ lastCallTime (refs w') = Some t /\ clock w' = t.
Proof.
  destruct w as [[lc L tid la res m] clk ts nh log].
  intros (c' & Hm & Hlc & Hc & HL & Hts & Hid & Hnone & Hargs & Hgaps & Hlast) Hc' Ht Hclk Hq.
  zred_all. subst m lc. injection Hc' as ->.
  rewrite (Z.max_r clk t) by lia.
  assert (Hold : forall L', L <= L' ->
            Forall (fun x => tm_kind x = Timeout /\ t <= tm_due x /\
                             wait cfg <= tm_due x /\ tm_due x <= L' + B) ts).
  { intros L' HL'. eapply Forall_impl; [|exact (Forall_and Hts Hq)].
    zred. intros x [(? & ? & ? & ?) ?]. repeat split; try assumption; lia. }
  unfold debounced, shouldInvoke, Date_now. zred.
  rewrite Hmaxing, HmaxWait. zred.
  replace (wait cfg <=? t - c) with false by (symmetry; apply Z.leb_gt; lia).
  replace (t - c <? 0) with false by (symmetry; apply Z.ltb_ge; lia).
  destruct tid as [h|].
  - assert (Hts' : ts <> []) by (apply Hid; discriminate).
    assert (HtL : t <= L + B).
    { destruct ts as [|x ts']; [congruence|].
      pose proof (Forall_inv (Hold L (Z.le_refl L))) as Hx. zred_all. lia. }
    assert (Hinvoke :
      let w' := snd (invokeFunc func t
                  (startTimer cfg (wait cfg)
                     (mkWorld (mkState (Some t) L (Some h) (Some args) res true)
                        t ts nh log))) in
      Inv w' /\ lastCallTime (refs w') = Some t /\ clock w' = t).
    { unfold startTimer, setTimeout, invokeFunc, dispatch. rewrite Hraf. zred.
      split; [|split; reflexivity].
      exists t. zred. repeat split; try lia; try congruence.
      * apply Forall_app. split; [apply Hold; lia|].
        constructor; [|constructor]. zred. repeat split; lia.
      * intros _ E. destruct ts; discriminate E.
      * rewrite map_app. apply gaps_le_snoc with (d := t1); [exact Hgaps|]. zred. lia.
      * rewrite map_app. apply last_last. }
    destruct (c =? 0) eqn:E0, (M <=? t - L) eqn:EM; zred; try exact Hinvoke.
    split; [|split; reflexivity].
    exists t. zred. repeat split; try lia; try congruence.
    apply Hold. lia.
  - destruct (Hnone eq_refl) as [Hpos ->]. specialize (Hargs eq_refl).
    replace (c =? 0) with false by (symmetry; apply Z.eqb_neq; lia).
    replace (M <=? t - L) with false by (symmetry; apply Z.leb_gt; lia).
    zred. unfold startTimer, setTimeout. rewrite Hraf. zred.
    split; [|split; reflexivity].
    exists t. zred. repeat split; try lia; try congruence.
    + apply Forall_app. split; [apply Hold; lia|].
      constructor; [|constructor]. zred. repeat split; lia.
    + intros _ E. destruct ts; discriminate E.
Qed.

(** The same, the timers included; the outcome is the same for all fuel from
    [lateness] on. *)
Lemma call_at_ceiling (args : list A) (w : World A R) (t c : Z) :
  Inv w -> lastCallTime (refs w) = Some c -> clock w <= t -> c <= t < c + wait cfg ->
  exists w',
    (forall fuel, (lateness t (timers w) <= fuel)%nat ->
                  call_at func cfg fuel t args w = Some w') /\
    Inv w' /\ lastCallTime (refs w') = Some t /\ clock w' = t.
Proof.
  intros Hinv Hc Hclk Ht.
  destruct (@run_timers_ceiling t c (lateness t (timers w)) w Hinv Hc Hclk (proj2 Ht)
              (Nat.le_refl _)) as (w1 & Hrun & Hinv1 & Hc1 & Hclk1 & Hq1).
  destruct (@debounced_ceiling args w1 t c Hinv1 Hc1 Ht Hclk1 Hq1) as (Hinv2 & Hc2 & Hclk2).
  eexists. split; [|split; [exact Hinv2|split; [exact Hc2|exact Hclk2]]].
  intros fuel Hfuel. unfold call_at.
  rewrite (@run_timers_more_fuel A R func cfg _ _ _ _ _ Hrun Hfuel). reflexivity.
Qed.

(** The calls of a stream, one after the other. *)
Lemma stream_ceiling (rest : list (Z * list A)) :
  forall (w : World A R) (c : Z) (a : list A),
  Inv w -> lastCallTime (refs w) = Some c -> clock w = c -> spaced (wait cfg) c rest ->
  exists fuel0 w',
    (forall fuel, (fuel0 <= fuel)%nat -> run_calls func cfg fuel rest w = Some w') /\
    Inv w' /\
    lastCallTime (refs w') = Some (fst (last rest (c, a))) /\
    clock w' = fst (last rest (c, a)).
Proof.
  induction rest as [|[t a'] rest IH]; intros w c a Hinv Hc Hclk Hs.
  - exists O, w. repeat split; assumption.
  - destruct Hs as [Ht Hs].
    destruct (@call_at_ceiling a' w t c Hinv Hc ltac:(lia) Ht)
      as (w1 & Hcall & Hinv1 & Hc1 & Hclk1).
    destruct (IH w1 t a' Hinv1 Hc1 Hclk1 Hs) as (f2 & w2 & Hrun & Hinv2 & Hc2 & Hclk2).
    exists (Nat.max (lateness t (timers w)) f2), w2.
    rewrite last_cons. repeat split; try assumption.
    intros fuel Hfuel. cbn [run_calls].
    rewrite Hcall by lia. apply Hrun. lia.
Qed.

(** The first call on a fresh controller establishes the invariant. *)
Lemma first_call_ceiling (t0 : Z) (a1 : list A) :
  0 <= t0 <= t1 ->
  exists w',
    (forall fuel, call_at func cfg fuel t1 a1 (initial_world t0) = Some w') /\
    Inv w' /\ lastCallTime (refs w') = Some t1 /\ clock w' = t1.
Proof.
  intros Ht. eexists. split; [|].
  - intros fuel. unfold call_at. rewrite run_timers_quiet by reflexivity. reflexivity.
  - unfold debounced, shouldInvoke, startTimer, setTimeout, invokeFunc, dispatch, Date_now,
      initial_world, initial_refs. zred.
    rewrite Hraf, (Z.max_r t0 t1) by lia. zred.
    destruct (leading cfg); zred.
    + split; [|split; reflexivity].
      exists t1. zred. repeat split; try lia; try congruence.
      constructor; [|constructor]. zred. repeat split; lia.
    + split; [|split; reflexivity].
      exists t1. zred. repeat split; try lia; try congruence.
      constructor; [|constructor]. zred. repeat split; lia.
Qed.

(** What the invariant says of the log right after a call. *)
Lemma ceiling_inv_progress (w : World A R) (c : Z) :
  Inv w -> lastCallTime (refs w) = Some c -> clock w = c ->
  gaps_le B (map fst (invoked w)) /\ c - last (map fst (invoked w)) t1 <= B.
Proof.
  intros (c' & Hm & Hlc & Hc & HL & Hts & Hid & Hnone & Hargs & Hgaps & Hlast) Hc' Hclk.
  split; [exact Hgaps|]. rewrite Hlast. rewrite Hlc in Hc'. injection Hc' as ->.
  destruct (timers w) as [|x ts] eqn:Ets.
  - destruct (timerId (refs w)) as [h|] eqn:Eh.
    + exfalso. apply Hid; [discriminate|reflexivity].
    + destruct (Hnone eq_refl) as [_ Ha]. specialize (Hargs Ha). lia.
  - pose proof (Forall_inv Hts) as Hx. cbv beta in Hx. lia.
Qed.
End Ceiling.

(** C2 (as stated, false).  [wait = 100], [maxWait = 150], calls at 10, 90,
    150, 240 and 330, each less than 100 after the one before: the target
    runs at 160 and next at 330, 170 apart.  The timer started by the call
    at 240 is due only at 340, and nothing looks at the ceiling between 310
    and the call at 330. *)
Lemma maxWait_gap_exceeds_ceiling :
  exists w,
    run_calls join_args cfg_max_150 2
      [(10, ["a"]); (90, ["b"]); (150, ["c"]); (240, ["d"]); (330, ["e"])]%string
      (initial_world 0) = Some w /\
    maxWait cfg_max_150 = Some 150 /\
    map fst (invoked w) = [160; 330] /\
    ~ gaps_le 150 (map fst (invoked w)).
Proof.
  eexists. split; [vm_compute; reflexivity|].
  split; [reflexivity|]. split; [reflexivity|].
  cbn. intros [H _]. lia.
Qed.

(** C2 (amended).  [wait = W > 0], [maxWait] given as [m] (the code uses
    [M = max m W]), [trailing] on: on a fresh controller, under calls each
    less than [W] after the one before, the timers running when due, two
    consecutive runs of the target are never more than [max M (2 W)] apart,
    and at each call no more than that has passed since the last run (since
    the first call, before any run).  Enough fuel always exists: the loop
    catches up before every call. *)
Theorem maxWait_bounds_invocation_gaps {A R : Type} (func : list A -> R)
    (W : Z) (m : jsnum) (lead : option bool) (has_window : bool)
    (t0 t1 : Z) (a1 : list A) (rest : list (Z * list A))
    (Hwait : 0 < W) (Hstart : 0 <= t0 <= t1) (Hstream : spaced W t1 rest) :
  let cfg :=
    useDebouncedCallback (JNum W)
      (Some {| opt_maxWait := Some m; opt_leading := lead; opt_trailing := None |})
      has_window in
  let bound := Z.max (Z.max (js_number_or_zero m) W) (2 * W) in
  exists fuel0 w,
    (forall fuel, (fuel0 <= fuel)%nat ->
       run_calls func cfg fuel ((t1, a1) :: rest) (initial_world t0) = Some w) /\
    maxWait cfg = Some (Z.max (js_number_or_zero m) W) /\
    gaps_le bound (map fst (invoked w)) /\
    fst (last rest (t1, a1)) - last (map fst (invoked w)) t1 <= bound.
Proof.
  intros cfg bound.
  assert (Hraf : useRAF cfg = false).
  { unfold cfg, useDebouncedCallback. cbn. destruct (W =? 0); reflexivity. }
  assert (HM : wait cfg <= Z.max (js_number_or_zero m) W) by (cbn; lia).
  destruct (@first_call_ceiling A R func cfg (Z.max (js_number_or_zero m) W) t1 Hraf Hwait
              t0 a1 Hstart)
    as (w1 & Hcall & Hinv1 & Hc1 & Hclk1).
  destruct (@stream_ceiling A R func cfg _ t1 Hraf eq_refl eq_refl eq_refl Hwait HM
              rest w1 t1 a1 Hinv1 Hc1 Hclk1 Hstream)
    as (fuel0 & w2 & Hrun & Hinv2 & Hc2 & Hclk2).
  exists fuel0, w2. split; [|split; [reflexivity|]].
  - intros fuel Hfuel. cbn [run_calls]. rewrite Hcall. apply Hrun. exact Hfuel.
  - exact (@ceiling_inv_progress A R cfg _ t1 Hwait w2 _ Hinv2 Hc2 Hclk2).
Qed.

Lemma maxWait_bounds_invocation_gaps_witness :
  exists fuel0 w,
    (forall fuel, (fuel0 <= fuel)%nat ->
       run_calls join_args cfg_max_150 fuel
         [(10, ["a"]); (90, ["b"]); (150, ["c"]); (240, ["d"]); (330, ["e"])]%string
         (initial_world 0) = Some w) /\
    maxWait cfg_max_150 = Some 150 /\
    gaps_le 200 (map fst (invoked w)) /\
    330 - last (map fst (invoked w)) 10 <= 200.
Proof.
  refine (@maxWait_bounds_invocation_gaps _ _ join_args 100 (JNum 150) None true 0 10
            ["a"%string] [(90, ["b"]); (150, ["c"]); (240, ["d"]); (330, ["e"])]%string
            _ _ _).
  - lia.
  - lia.
  - cbn. lia.
Defined.


(** ** [shouldInvoke] *)

(** Off the instant 0, [shouldInvoke] is the disjunction the specification
    gives. *)
Lemma shouldInvoke_spec_off_zero {A R : Type} (cfg : Config) (now : Z) (s : State A R) :
  lastCallTime s <> Some 0 ->
  (maxing cfg = true <-> maxWait cfg <> None) ->
  shouldInvoke cfg now s = shouldInvoke_spec cfg now s.
Proof.
  intros Hz [Hm1 Hm2]. unfold shouldInvoke, shouldInvoke_spec.
  destruct (mounted s); simpl; [|reflexivity].
  assert (Hd : (maxing cfg && (js_to_number (maxWait cfg) <=? now - lastInvokeTime s))
               = match maxWait cfg with
                 | Some m => m <=? now - lastInvokeTime s
                 | None => false
                 end).
  { destruct (maxWait cfg) as [m|]; simpl.
    - rewrite Hm2 by discriminate. reflexivity.
    - destruct (maxing cfg); [|reflexivity]. exfalso. now apply Hm1. }
  rewrite Hd.
  destruct (lastCallTime s) as [c|]; simpl; [|reflexivity].
  assert (Hc : (c =? 0) = false) by (apply Z.eqb_neq; congruence).
  rewrite Hc. reflexivity.
Qed.

(** The constructor keeps [maxing] and [maxWait] in step, and [maxWait] is
    never below [wait]. *)
Lemma useDebouncedCallback_maxing (wait0 : jsnum) (o : option Options) (hw : bool) :
  let cfg := useDebouncedCallback wait0 o hw in
  (maxing cfg = true <-> maxWait cfg <> None) /\
  match maxWait cfg with Some m => wait cfg <= m | None => True end.
Proof.
  unfold useDebouncedCallback; simpl.
  destruct (opt_maxWait _); simpl; split; try lia; try tauto; split; congruence.
Qed.

(** C3 (fails on the code at call time 0).  A call made at clock reading 0
    leaves [lastCallTime = 0], which [!lastCallTime.current] takes for "no
    call recorded": 50 ms later, with [wait = 100] and no [maxWait],
    [shouldInvoke] answers [true] although none of the four cases (a)-(d)
    of the specification holds. *)
Theorem shouldInvoke_after_call_at_zero :
  let w := snd (debounced join_args cfg_default_100 ["a"%string] (initial_world 0)) in
  lastCallTime (refs w) = Some 0 /\
  mounted (refs w) = true /\
  shouldInvoke cfg_default_100 50 (refs w) = true /\
  shouldInvoke_spec cfg_default_100 50 (refs w) = false.
Proof. vm_compute. repeat split. Qed.

(** ** Calls after teardown *)

(** A call on a torn-down controller answers the cached result and invokes
    nothing; it leaves a scheduled timer alone. *)
Lemma debounced_unmounted {A R : Type} (func : list A -> R) (cfg : Config)
    (args : list A) (w : World A R) :
  mounted (refs w) = false ->
  fst (debounced func cfg args w) = result (refs w) /\
  invoked (snd (debounced func cfg args w)) = invoked w /\
  (timerId (refs w) <> None -> timers (snd (debounced func cfg args w)) = timers w).
Proof.
  intros Hm. unfold debounced, shouldInvoke. simpl. rewrite Hm. simpl.
  destruct (timerId (refs w)) as [h|] eqn:Eh; simpl.
  - repeat split.
  - unfold startTimer. simpl. rewrite Eh.
    destruct (useRAF cfg); simpl; repeat split; congruence.
Qed.

(** C4 (fails on the code when no timer is active).  The controller is torn
    down before any call; a call at clock reading 10 returns the cached
    result (none yet) and invokes nothing, but it does schedule a timer:
    the last [if (!timerId.current)] of [debounced] is not guarded by
    [mounted]. *)
Theorem debounced_after_unmount_schedules :
  let w0 := with_clock 10 (unmount (initial_world (A := string) (R := string) 0)) in
  let out := debounced join_args cfg_default_100 ["a"%string] w0 in
  mounted (refs w0) = false /\
  timers w0 = [] /\
  fst out = None /\
  invoked (snd out) = [] /\
  timers (snd out) = [mkTimer 1 Timeout 110] /\
  pending (snd out) = true.
Proof. vm_compute. repeat split. Qed.

(** ** One timer at a time *)

(** C5 (fails on the code with [setTimeout] and [maxWait]).  [wait = 100],
    [maxWait = 150], calls at 10, 90, 150, 240 and 330: the call at 330
    finds the ceiling passed while timer 3 (due at 340) is active, and
    [startTimer] schedules timer 4 without clearing timer 3 -- only the
    [requestAnimationFrame] path cancels first.  Both timers are live. *)
Theorem startTimer_leaves_active_timeout :
  exists w,
    run_calls join_args cfg_max_150 2
      [(10, ["a"]); (90, ["b"]); (150, ["c"]); (240, ["d"]); (330, ["e"])]%string
      (initial_world 0) = Some w /\
    useRAF cfg_max_150 = false /\
    timers w = [mkTimer 3 Timeout 340; mkTimer 4 Timeout 430] /\
    timerId (refs w) = Some 4%positive.
Proof. eexists. vm_compute. repeat split. Qed.

(** ** Which scheduler [startTimer] uses *)

(** What [startTimer] leaves behind, for any configuration. *)
Lemma startTimer_spec {A R : Type} (cfg : Config) (delay : Z) (w : World A R) :
  timerId (refs (startTimer cfg delay w)) = Some (next_handle w) /\
  timers (startTimer cfg delay w) =
    if useRAF cfg
    then timers (cancelAnimationFrame (timerId (refs w)) w)
         ++ [mkTimer (next_handle w) Frame (clock w)]
    else timers w ++ [mkTimer (next_handle w) Timeout (clock w + Z.max 0 delay)].
Proof.
  unfold startTimer. destruct (useRAF cfg); simpl.
  - destruct (timerId (refs w)); simpl; split; reflexivity.
  - split; reflexivity.
Qed.

(** C6 (as stated, false).  With [wait = 0] given explicitly and a window
    present, [useRAF] is off and the first call schedules a plain timeout,
    not an animation frame. *)
Lemma explicit_zero_wait_uses_setTimeout :
  let cfg := useDebouncedCallback (JNum 0) None true in
  useRAF cfg = false /\
  map tm_kind
    (timers (snd (debounced join_args cfg ["a"%string] (initial_world 0)))) = [Timeout].
Proof. vm_compute. split; reflexivity. Qed.

(** With a zero [wait], the leading edge off and the trailing edge on, a
    call made when nothing is pending runs nothing itself; it leaves one
    timer, due at once, and the target runs when that timer expires. *)
Lemma zero_wait_runs_on_expiry {A R : Type} (func : list A -> R) (cfg : Config)
    (w0 : World A R) (t : Z) (args : list A) (fuel : nat) :
  wait cfg = 0 -> leading cfg = false -> trailing cfg = true ->
  idle w0 -> clock w0 <= t -> (1 <= fuel)%nat ->
  let out := debounced func cfg args (with_clock t w0) in
  fst out = result (refs w0) /\
  invoked (snd out) = invoked w0 /\
  timers (snd out) = [mkTimer (next_handle w0) (timer_kind cfg) t] /\
  exists w,
    run_to_rest func cfg fuel [(t, args)] w0 = Some w /\
    invoked w = invoked w0 ++ [(t, args)] /\
    result (refs w) = Some (func args) /\
    timers w = [] /\
    clock w = t.
Proof.
  intros Hzero Hlead Htrail Hidle Hclk Hfuel.
  destruct w0 as [[lc L tid la res m] clk ts nh log].
  destruct Hidle as (Hm & Hid & Hts). zred_all. subst m tid ts.
  destruct fuel as [|fuel]; [lia|].
  unfold run_to_rest, run_calls, call_at.
  rewrite run_timers_quiet by reflexivity.
  zred. rewrite (Z.max_r clk t) by lia.
  unfold timer_kind, debounced, Date_now.
  match goal with
  | |- context [shouldInvoke cfg ?now ?s] => destruct (shouldInvoke cfg now s)
  end;
    zred; rewrite ?Hlead; unfold startTimer, setTimeout, requestAnimationFrame;
    destruct (useRAF cfg) eqn:Eraf; zred;
    rewrite ?Hzero, ?Z.add_0_r;
    (split; [reflexivity|]; split; [reflexivity|]; split; [reflexivity|]);
    unfold fire, timerExpired, shouldInvoke, Date_now, drop_timer, is_kind; zred;
    rewrite Pos.eqb_refl, Hzero, Z.max_id, Z.sub_diag; zred;
    rewrite orb_true_r; zred;
    unfold trailingEdge, invokeFunc, dispatch; rewrite Htrail; zred;
    (rewrite run_timers_quiet by reflexivity);
    eexists; repeat split.
Qed.

(** C6 (amended).  Animation frames are used exactly when [wait] is left
    out (or is not a number) and a window exists, and [wait] then counts as
    0; [startTimer] then cancels the frame request it holds, asks for a new
    one and ignores the delay, and otherwise appends a timeout due after the
    delay.  An explicit [wait = 0] takes the timeout path with delay 0.
    Either way, with [wait] 0, the leading edge off and the trailing edge
    on, a call made when nothing is pending runs nothing itself and answers
    the cached result; it leaves one timer, due at the clock reading of the
    call, and the target runs on the call's arguments when that timer
    expires, after which the queue is empty. *)
Theorem useRAF_only_when_wait_omitted
    {A R : Type} (func : list A -> R)
    (wait0 : jsnum) (o : option Options) (has_window : bool) :
  let cfg := useDebouncedCallback wait0 o has_window in
  useRAF cfg =
    match wait0 with
    | JNum _ => false
    | _ => has_window
    end /\
  wait cfg =
    match wait0 with
    | JNum z => z
    | _ => 0
    end /\
  (forall (delay : Z) (w : World A R),
      timerId (refs (startTimer cfg delay w)) = Some (next_handle w) /\
      timers (startTimer cfg delay w) =
        if useRAF cfg
        then timers (cancelAnimationFrame (timerId (refs w)) w)
             ++ [mkTimer (next_handle w) Frame (clock w)]
        else timers w ++ [mkTimer (next_handle w) Timeout (clock w + Z.max 0 delay)]) /\
  (forall (w0 : World A R) (t : Z) (args : list A) (fuel : nat),
      wait cfg = 0 -> leading cfg = false -> trailing cfg = true ->
      idle w0 -> clock w0 <= t -> (1 <= fuel)%nat ->
      let out := debounced func cfg args (with_clock t w0) in
      fst out = result (refs w0) /\
      invoked (snd out) = invoked w0 /\
      timers (snd out) = [mkTimer (next_handle w0) (timer_kind cfg) t] /\
      exists w,
        run_to_rest func cfg fuel [(t, args)] w0 = Some w /\
        invoked w = invoked w0 ++ [(t, args)] /\
        result (refs w) = Some (func args) /\
        timers w = [] /\
        clock w = t) /\
  (forall (t : Z) (args : list A),
      let cfg0 := useDebouncedCallback (JNum 0) None has_window in
      let out := debounced func cfg0 args (initial_world t) in
      useRAF cfg0 = false /\
      invoked (snd out) = [] /\
      timers (snd out) = [mkTimer 1 Timeout t]).
Proof.
  intros cfg. split; [|split; [|split; [|split]]].
  - unfold cfg. simpl. destruct wait0 as [| |z]; simpl; try reflexivity.
    destruct (z =? 0); reflexivity.
  - unfold cfg. destruct wait0; reflexivity.
  - intros delay w. apply startTimer_spec.
  - intros w0 t args fuel. apply zero_wait_runs_on_expiry.
  - intros t args. unfold debounced, initial_world, shouldInvoke, startTimer. simpl.
    rewrite Z.add_0_r. repeat split.
Qed.

(** An explicit zero [wait] with default options: the call at 5 runs
    nothing, the timeout it leaves is due at 5, and its expiry runs the
    target. *)
Lemma useRAF_only_when_wait_omitted_witness :
  let cfg := useDebouncedCallback (JNum 0) None true in
  let out := debounced join_args cfg ["a"%string] (with_clock 5 (initial_world 0)) in
  invoked (snd out) = [] /\
  timers (snd out) = [mkTimer 1 Timeout 5] /\
  exists w,
    run_to_rest join_args cfg 1 [(5, ["a"%string])] (initial_world 0) = Some w /\
    invoked w = [(5, ["a"%string])] /\
    timers w = [].
Proof.
  pose proof (proj1 (proj2 (proj2 (proj2
    (@useRAF_only_when_wait_omitted _ _ join_args (JNum 0) None true))))
      (initial_world 0) 5 ["a"%string] 1%nat) as H.
  destruct H as (_ & Hlog & Hts & w & Hrun & Hlog' & _ & Hts' & _).
  - reflexivity.
  - reflexivity.
  - reflexivity.
  - repeat split.
  - cbn. lia.
  - apply le_n.
  - split; [exact Hlog|]. split; [exact Hts|].
    exists w. split; [exact Hrun|]. split; [exact Hlog'|exact Hts'].
Defined.

(** ** [flush] *)

(** C7.  Without an active timer [flush] hands back the cached result and
    changes nothing.  With one it is the trailing edge at the current clock
    reading: the handle and the held arguments are cleared, and when
    [trailing] is on and arguments are held the target runs on them now,
    its value being the answer; otherwise nothing runs and the cached
    result is the answer. *)
Theorem flush_spec {A R : Type} (func : list A -> R) (cfg : Config) (w : World A R) :
  match timerId (refs w) with
  | None =>
      flush func cfg w = (result (refs w), w)
  | Some _ =>
      flush func cfg w = trailingEdge func cfg (clock w) w /\
      timerId (refs (snd (flush func cfg w))) = None /\
      lastArgs (refs (snd (flush func cfg w))) = None /\
      timers (snd (flush func cfg w)) = timers w /\
      match trailing cfg, lastArgs (refs w) with
      | true, Some args =>
          fst (flush func cfg w) = Some (func args) /\
          result (refs (snd (flush func cfg w))) = Some (func args) /\
          invoked (snd (flush func cfg w)) = invoked w ++ [(clock w, args)] /\
          lastInvokeTime (refs (snd (flush func cfg w))) = clock w
      | _, _ =>
          fst (flush func cfg w) = result (refs w) /\
          result (refs (snd (flush func cfg w))) = result (refs w) /\
          invoked (snd (flush func cfg w)) = invoked w /\
          lastInvokeTime (refs (snd (flush func cfg w))) = lastInvokeTime (refs w)
      end
  end.
Proof.
  unfold flush, trailingEdge, Date_now.
  destruct (timerId (refs w)) as [h|] eqn:Eh; simpl; [|reflexivity].
  destruct (trailing cfg); simpl.
  - destruct (lastArgs (refs w)) as [args|]; simpl; repeat split.
  - destruct (lastArgs (refs w)) as [args|]; simpl; repeat split.
Qed.

(** ** [cancel] *)

(** A dropped timer is no longer in the queue. *)
Lemma drop_timer_gone (k : TimerKind) (h : positive) (ts : list Timer) :
  existsb (fun tm => is_kind k tm && Pos.eqb (tm_id tm) h) (drop_timer k h ts) = false.
Proof.
  unfold drop_timer. induction ts as [|tm ts IH]; simpl; [reflexivity|].
  destruct (is_kind k tm && Pos.eqb (tm_id tm) h) eqn:E; simpl.
  - exact IH.
  - rewrite E. exact IH.
Qed.

(** C8.  [cancel] removes the timer whose handle is held from the host's
    queue, puts [lastInvokeTime] back to 0, clears the arguments, the call
    time and the handle, and keeps the cached result (and the log of
    invocations).  Afterwards nothing is pending and [flush] answers the
    result cached before the cancellation without touching anything. *)
Theorem cancel_spec {A R : Type} (func : list A -> R) (cfg : Config) (w : World A R) :
  let w' := cancel cfg w in
  timers w' =
    match timerId (refs w) with
    | Some h => drop_timer (timer_kind cfg) h (timers w)
    | None => timers w
    end /\
  match timerId (refs w) with
  | Some h =>
      existsb (fun tm => is_kind (timer_kind cfg) tm && Pos.eqb (tm_id tm) h) (timers w')
      = false
  | None => True
  end /\
  lastInvokeTime (refs w') = 0 /\
  lastArgs (refs w') = None /\
  lastCallTime (refs w') = None /\
  timerId (refs w') = None /\
  result (refs w') = result (refs w) /\
  mounted (refs w') = mounted (refs w) /\
  invoked w' = invoked w /\
  pending w' = false /\
  flush func cfg w' = (result (refs w), w').
Proof.
  unfold cancel, timer_kind, pending, flush. simpl.
  destruct (timerId (refs w)) as [h|] eqn:Eh; simpl.
  - destruct (useRAF cfg); cbn [clearTimeout cancelAnimationFrame with_refs with_timers refs timers
      lastInvokeTime lastArgs lastCallTime timerId result mounted invoked set_lastArgs
      set_lastCallTime set_timerId set_lastInvokeTime js_not_ref negb];
      repeat split; apply drop_timer_gone.
  - repeat split.
Qed.

(** ** The delay of a restarted timer *)

(** While the controller is enabled, a timer that expires too early is
    restarted after the delay the specification gives, and that delay is
    positive. *)
Lemma remainingWait_enabled {A R : Type} (cfg : Config) (now : Z) (s : State A R) :
  mounted s = true ->
  shouldInvoke cfg now s = false ->
  (maxing cfg = true <-> maxWait cfg <> None) ->
  remainingWait cfg now s =
    match maxWait cfg with
    | Some m =>
        Z.min (wait cfg - (now - js_to_number (lastCallTime s)))
              (m - (now - lastInvokeTime s))
    | None => wait cfg - (now - js_to_number (lastCallTime s))
    end /\
  0 < remainingWait cfg now s.
Proof.
  intros Hm Hs [Hm1 Hm2]. unfold shouldInvoke in Hs. rewrite Hm in Hs. simpl in Hs.
  rewrite !orb_false_iff in Hs. destruct Hs as [[[_ Hb] _] Hd].
  apply Z.leb_gt in Hb. unfold remainingWait.
  destruct (maxWait cfg) as [m|]; simpl in *.
  - rewrite Hm2 in * by discriminate. simpl in Hd. apply Z.leb_gt in Hd. split; lia.
  - destruct (maxing cfg); [exfalso; now apply Hm1|]. split; [reflexivity|lia].
Qed.

(** C9 (fails on the code once the controller is torn down).  [wait = 100],
    [maxWait = 150]; the controller is torn down, a call arrives at clock
    reading 200 and schedules timer 1 for 300.  When it expires
    [shouldInvoke] is false (the controller is disabled), the remaining
    wait is [min (100 - 100) (150 - 300) = -150], and the timer is
    restarted with that negative delay, due at once. *)
Theorem remainingWait_negative_after_unmount :
  exists w,
    call_at join_args cfg_max_150 0 200 ["a"%string] (unmount (initial_world 0)) = Some w /\
    timers w = [mkTimer 1 Timeout 300] /\
    let expiring := with_clock 300 (with_timers [] w) in
    shouldInvoke cfg_max_150 300 (refs expiring) = false /\
    remainingWait cfg_max_150 300 (refs expiring) = -150 /\
    timers (fire join_args cfg_max_150 (mkTimer 1 Timeout 300) w) = [mkTimer 2 Timeout 300].
Proof. eexists. vm_compute. repeat split. Qed.

(** ** Both edges on a single call *)

(** C10.  [invokeFunc] clears the held arguments and only then dispatches
    to the target, on the arguments it took out.  Hence, with [leading] and
    [trailing] both on, a single call on a fresh controller runs the target
    once, at the call: the timer it leaves expires, finds no arguments and
    runs nothing, and the queue is then empty. *)
Theorem leading_call_consumes_arguments {A R : Type} (func : list A -> R)
    (wait0 : jsnum) (maxw : option jsnum) (has_window : bool)
    (t0 t : Z) (args : list A) (fuel : nat)
    (Ht : t0 <= t) (Hfuel : (1 <= fuel)%nat) :
  let cfg := cfg_both_edges wait0 maxw has_window in
  (forall (time : Z) (w : World A R),
      exists w1,
        lastArgs (refs w1) = None /\
        invokeFunc func time w = dispatch func (js_apply_args (lastArgs (refs w))) w1 /\
        lastArgs (refs (snd (invokeFunc func time w))) = None /\
        invoked (snd (invokeFunc func time w))
        = invoked w ++ [(clock w, js_apply_args (lastArgs (refs w)))]) /\
  exists w,
    run_to_rest func cfg fuel [(t, args)] (initial_world t0) = Some w /\
    invoked w = [(t, args)] /\
    timers w = [] /\
    lastArgs (refs w) = None.
Proof.
  intros cfg. split.
  { intros time w. eexists. split; [|split; [reflexivity|]].
    - reflexivity.
    - split; reflexivity. }
  destruct fuel as [|fuel]; [lia|].
  unfold run_to_rest, run_calls, call_at.
  cbn [run_timers initial_world timers next_timer earliest].
  replace (Z.max (clock (initial_world (A:=A) (R:=R) t0)) t) with t by (cbn; lia).
  unfold debounced, shouldInvoke, startTimer, invokeFunc, dispatch, Date_now, cfg,
    cfg_both_edges, useDebouncedCallback.
  assert (Hraf : (js_not wait0 && js_strict_neq_zero wait0 && has_window) = true ->
                 js_number_or_zero wait0 = 0).
  { destruct wait0 as [| |z]; try reflexivity. simpl.
    destruct (z =? 0); simpl; discriminate. }
  destruct (js_not wait0 && js_strict_neq_zero wait0 && has_window) eqn:E;
    [rewrite (Hraf eq_refl)|]; clear Hraf;
    unfold fire, timerExpired, shouldInvoke, trailingEdge, Date_now, initial_refs;
    zred;
    match goal with
    | |- context [if ?c then _ else _] => assert (Hc : c = true)
    end.
  1, 3: rewrite !orb_true_iff; left; left; right; apply Z.leb_le; lia.
  all: rewrite Hc; destruct fuel; cbn; eexists; repeat split.
Qed.

Lemma leading_call_consumes_arguments_witness :
  exists w,
    run_to_rest join_args (cfg_both_edges (JNum 100) None true) 1
      [(10, ["a"%string])] (initial_world 0) = Some w /\
    invoked w = [(10, ["a"%string])] /\
    timers w = [] /\
    lastArgs (refs w) = None.
Proof.
  refine (proj2 (@leading_call_consumes_arguments _ _ join_args (JNum 100) None true
                   0 10 ["a"%string] 1%nat _ _)).
  - lia.
  - apply le_n.
Defined.

(** * Further properties *)



(** The last result of a log that ends with a call. *)
Lemma last_result_snoc {A R : Type} (func : list A -> R) log t (args : list A) :
  last_result func (log ++ [(t, args)]) = Some (func args).
Proof. unfold last_result. rewrite rev_unit. reflexivity. Qed.


(** X3.  Every path through [debounced] leaves a timer handle held: right
    after a call [pending()] is true, whatever the state and the options,
    and the call time recorded is the clock reading of the call.  The clock
    and the [mounted] flag are not touched. *)
Theorem pending_after_call {A R : Type} (func : list A -> R) (cfg : Config)
    (args : list A) (w : World A R) :
  pending (snd (debounced func cfg args w)) = true /\
  lastCallTime (refs (snd (debounced func cfg args w))) = Some (clock w) /\
  clock (snd (debounced func cfg args w)) = clock w /\
  mounted (refs (snd (debounced func cfg args w))) = mounted (refs w).
Proof.
  split_world w. unfold debounced, pending, Date_now.
  destruct (shouldInvoke cfg _ _), tid, m, (maxing cfg), (leading cfg);
    unfold startTimer; destruct (useRAF cfg); lazy; repeat split.
Qed.

(** X2.  A call either runs nothing -- it answers the cached result, leaves
    result and log alone and holds its arguments for later -- or it runs the
    target exactly once, now, on its own arguments, answers the fresh value
    and holds no arguments.  The second case needs an enabled controller
    and one of [leading] and [maxWait]. *)
Theorem call_invokes_own_arguments_or_nothing {A R : Type} (func : list A -> R)
    (cfg : Config) (args : list A) (w : World A R) :
  let out := debounced func cfg args w in
  (fst out = result (refs w) /\
   result (refs (snd out)) = result (refs w) /\
   invoked (snd out) = invoked w /\
   lastArgs (refs (snd out)) = Some args)
  \/
  (fst out = Some (func args) /\
   result (refs (snd out)) = Some (func args) /\
   invoked (snd out) = invoked w ++ [(clock w, args)] /\
   lastArgs (refs (snd out)) = None /\
   lastInvokeTime (refs (snd out)) = clock w /\
   mounted (refs w) = true /\
   (leading cfg = true \/ maxing cfg = true)).
Proof.
  split_world w. unfold debounced, Date_now, shouldInvoke.
  destruct m; cbn [mounted negb refs].
  2:{ left. unfold startTimer. destruct tid, (useRAF cfg); cbn; repeat split. }
  match goal with |- context [if ?b && _ && _ then _ else _] => destruct b end;
    destruct tid, (maxing cfg) eqn:Emax, (leading cfg) eqn:Elead;
    unfold startTimer; destruct (useRAF cfg); lazy;
    first [left; repeat split; reflexivity | right; repeat split; auto].
Qed.

(** X5.  A second [flush], or a second [cancel], right after the first
    changes nothing; the second [flush] gives the answer of the first. *)
Theorem flush_cancel_idempotent {A R : Type} (func : list A -> R) (cfg : Config)
    (w : World A R) :
  flush func cfg (snd (flush func cfg w)) = flush func cfg w /\
  cancel cfg (cancel cfg w) = cancel cfg w.
Proof.
  split_world w. split.
  - unfold flush, trailingEdge, Date_now. destruct tid; [|reflexivity]. cbn.
    destruct (trailing cfg), la; reflexivity.
  - unfold cancel. destruct tid, (useRAF cfg); reflexivity.
Qed.

(** X4.  With [trailing] on, a call followed by [flush] has run the target
    exactly once on the arguments of the call, at the clock reading of the
    call -- by the call itself or by the flush, never by both; [flush]
    answers that value and nothing is pending.  This holds in every state,
    a torn-down controller included. *)
Theorem call_then_flush_delivers_once {A R : Type} (func : list A -> R) (cfg : Config)
    (args : list A) (w : World A R) (Htrailing : trailing cfg = true) :
  let called := snd (debounced func cfg args w) in
  let out := flush func cfg called in
  fst out = Some (func args) /\
  invoked (snd out) = invoked w ++ [(clock w, args)] /\
  result (refs (snd out)) = Some (func args) /\
  lastArgs (refs (snd out)) = None /\
  pending (snd out) = false.
Proof.
  split_world w. unfold debounced, Date_now.
  destruct (shouldInvoke cfg _ _), tid, m, (maxing cfg), (leading cfg);
    unfold startTimer; destruct (useRAF cfg); lazy delta [fst snd]; cbn;
    unfold flush, trailingEdge, pending; cbn; rewrite Htrailing; cbn; repeat split.
Qed.

Lemma call_then_flush_delivers_once_witness :
  let called := snd (debounced join_args cfg_default_100 ["a"%string] (initial_world 5)) in
  fst (flush join_args cfg_default_100 called) = Some "a"%string /\
  invoked (snd (flush join_args cfg_default_100 called)) = [(5, ["a"%string])].
Proof.
  pose proof (@call_then_flush_delivers_once _ _ join_args cfg_default_100 ["a"%string]
                (initial_world 5) eq_refl) as H.
  split; [exact (proj1 H)|exact (proj1 (proj2 H))].
Defined.

(** X14.  What the constants of a render look like, for every input:
    [maxing] holds exactly when a [maxWait] is kept, and that one is at least
    [wait]; [requestAnimationFrame] is used only with [wait = 0] and a
    window; a [wait] that is not a number is 0; without options the leading
    edge is off, the trailing edge on and there is no ceiling; a [trailing]
    key holding [undefined] turns the trailing edge off; a [maxWait] that is
    not a number counts as 0 before it is raised to [wait]. *)
Theorem useDebouncedCallback_normalises (wait0 : jsnum) (o : option Options)
    (has_window : bool) :
  let cfg := useDebouncedCallback wait0 o has_window in
  (maxing cfg = true <-> exists m, maxWait cfg = Some m /\ wait cfg <= m) /\
  (maxing cfg = false <-> maxWait cfg = None) /\
  (useRAF cfg = true -> wait cfg = 0) /\
  (has_window = false -> useRAF cfg = false) /\
  wait cfg = match wait0 with JNum z => z | _ => 0 end /\
  match o with
  | None => leading cfg = false /\ trailing cfg = true /\ maxing cfg = false
  | Some opts =>
      leading cfg = match opt_leading opts with Some b => b | None => false end /\
      trailing cfg = match opt_trailing opts with
                     | None => true
                     | Some None => false
                     | Some (Some b) => b
                     end /\
      maxWait cfg = match opt_maxWait opts with
                    | None => None
                    | Some (JNum z) => Some (Z.max z (wait cfg))
                    | Some _ => Some (Z.max 0 (wait cfg))
                    end
  end.
Proof.
  unfold useDebouncedCallback. cbn.
  repeat split.
  - intros H. destruct o as [[[m|] ? ?]|]; cbn in *; try discriminate.
    eexists. split; [reflexivity|lia].
  - intros (m & H & _). destruct o as [[[m'|] ? ?]|]; cbn in *; congruence.
  - destruct o as [[[m|] ? ?]|]; cbn; congruence.
  - destruct o as [[[m|] ? ?]|]; cbn; congruence.
  - destruct wait0 as [| |z]; cbn; try reflexivity.
    destruct (z =? 0); cbn; discriminate.
  - intros ->. rewrite andb_false_r. reflexivity.
  - destruct o as [[mw ld tr]|]; cbn; [|repeat split].
    destruct ld as [l|], tr as [[b|]|], mw as [[| |z]|]; repeat split.
Qed.

(** X7.  The cached result is always the value of the last run of the
    target: this holds at the start and a call, an expiry, [flush], [cancel]
    and the teardown keep it. *)
Theorem result_is_last_invocation {A R : Type} (func : list A -> R) (cfg : Config)
    (w : World A R) (Hw : result_is_last func w) :
  (forall args, result_is_last func (snd (debounced func cfg args w))) /\
  (forall tm, result_is_last func (fire func cfg tm w)) /\
  result_is_last func (snd (flush func cfg w)) /\
  result_is_last func (cancel cfg w) /\
  result_is_last func (unmount w) /\
  (forall t0, result_is_last func (initial_world (A := A) (R := R) t0)).
Proof.
  split_world w. unfold result_is_last in *. cbn in Hw. subst res.
  repeat split.
  - intros args. unfold debounced, Date_now.
    destruct (shouldInvoke cfg _ _), tid, m, (maxing cfg), (leading cfg);
      unfold startTimer; destruct (useRAF cfg); cbn;
      rewrite ?last_result_snoc; reflexivity.
  - intros tm. unfold fire, timerExpired, Date_now.
    destruct (shouldInvoke cfg _ _); cbn.
    + unfold trailingEdge. destruct (trailing cfg), la; cbn;
        rewrite ?last_result_snoc; reflexivity.
    + unfold startTimer. destruct (useRAF cfg), tid; reflexivity.
  - unfold flush, trailingEdge, Date_now.
    destruct tid, (trailing cfg), la; cbn; rewrite ?last_result_snoc; reflexivity.
  - unfold cancel. destruct tid, (useRAF cfg); reflexivity.
Qed.

Lemma result_is_last_invocation_witness :
  result_is_last join_args
    (snd (debounced join_args cfg_default_100 ["a"%string] (initial_world 0))).
Proof.
  refine (proj1 (@result_is_last_invocation _ _ join_args cfg_default_100
                   (initial_world 0) _) ["a"%string]).
  reflexivity.
Defined.

(** After teardown an expiry runs nothing and restarts a timer. *)
Lemma fire_unmounted {A R : Type} (func : list A -> R) (cfg : Config)
    (tm : Timer) (w : World A R) :
  mounted (refs w) = false ->
  invoked (fire func cfg tm w) = invoked w /\
  mounted (refs (fire func cfg tm w)) = false /\
  result (refs (fire func cfg tm w)) = result (refs w) /\
  lastArgs (refs (fire func cfg tm w)) = lastArgs (refs w) /\
  timers (fire func cfg tm w) <> [].
Proof.
  split_world w. cbn. intros ->.
  unfold fire, timerExpired, shouldInvoke, startTimer. cbn.
  destruct tid, (useRAF cfg); cbn; repeat split;
    intros E; apply app_eq_nil in E; destruct E; discriminate.
Qed.

(** X9.  Once the controller is torn down, neither a call nor a timer
    expiry runs the target or changes the cached result; a call answers the
    cached result, an expiry keeps the held arguments, and the controller
    stays torn down. *)
Theorem teardown_silences_calls_and_timers {A R : Type} (func : list A -> R)
    (cfg : Config) (w : World A R) (Hdown : mounted (refs w) = false) :
  (forall args,
      let out := debounced func cfg args w in
      fst out = result (refs w) /\
      invoked (snd out) = invoked w /\
      result (refs (snd out)) = result (refs w) /\
      mounted (refs (snd out)) = false) /\
  (forall tm,
      invoked (fire func cfg tm w) = invoked w /\
      result (refs (fire func cfg tm w)) = result (refs w) /\
      lastArgs (refs (fire func cfg tm w)) = lastArgs (refs w) /\
      mounted (refs (fire func cfg tm w)) = false).
Proof.
  split.
  - intros args. destruct (debounced_unmounted func cfg args w Hdown) as (H1 & H2 & _).
    cbn zeta. repeat split; try assumption.
    + split_world w. cbn in Hdown. subst m. unfold debounced, shouldInvoke, startTimer.
      cbn. destruct tid, (useRAF cfg); reflexivity.
    + split_world w. cbn in Hdown. subst m. unfold debounced, shouldInvoke, startTimer.
      cbn. destruct tid, (useRAF cfg); reflexivity.
  - intros tm. destruct (fire_unmounted func cfg tm w Hdown) as (H1 & H2 & H3 & H4 & _).
    repeat split; assumption.
Qed.

Lemma teardown_silences_calls_and_timers_witness :
  invoked (snd (debounced join_args cfg_default_100 ["a"%string]
                  (unmount (initial_world 0)))) = [].
Proof.
  refine (proj1 (proj2 (proj1 (@teardown_silences_calls_and_timers _ _ join_args
                                 cfg_default_100 (unmount (initial_world 0)) _)
                          ["a"%string]))).
  reflexivity.
Defined.

(** A queue that is not empty has an earliest timer. *)
Lemma earliest_nonempty (ts : list Timer) : ts <> [] -> exists tm, earliest ts = Some tm.
Proof.
  destruct ts as [|x ts]; [congruence|]. intros _. cbn [earliest].
  destruct (earliest ts) as [m|]; [destruct (tm_due m <? tm_due x)|]; eexists; reflexivity.
Qed.

(** X10.  After teardown every expiry restarts a timer, so a queue that is
    not empty never empties: the event loop does not quiesce, whatever the
    fuel. *)
Theorem timers_never_settle_after_teardown {A R : Type} (func : list A -> R)
    (cfg : Config) (fuel : nat) : forall (w : World A R),
  mounted (refs w) = false -> timers w <> [] ->
  run_timers func cfg fuel None w = None.
Proof.
  induction fuel as [|fuel IH]; intros w Hdown Hts;
    destruct (earliest_nonempty Hts) as [tm Etm];
    assert (Enext : next_timer None (timers w) = Some tm)
      by (unfold next_timer; rewrite Etm; reflexivity).
  - cbn. rewrite Enext. reflexivity.
  - rewrite run_timers_step with (tm := tm) by exact Enext.
    destruct (fire_unmounted func cfg tm w Hdown) as (_ & Hm & _ & _ & Hne).
    apply IH; assumption.
Qed.

Lemma timers_never_settle_after_teardown_witness :
  run_timers join_args cfg_default_100 10 None
    (snd (debounced join_args cfg_default_100 ["a"%string] (unmount (initial_world 0))))
  = None.
Proof.
  refine (@timers_never_settle_after_teardown _ _ join_args cfg_default_100 10%nat _ _ _).
  - reflexivity.
  - cbn. discriminate.
Defined.

(** Removing a timer of the queue makes the queue shorter. *)
Lemma drop_timer_shorter (tm : Timer) (ts : list Timer) :
  In tm ts ->
  (List.length (drop_timer (tm_kind tm) (tm_id tm) ts) < List.length ts)%nat.
Proof.
  unfold drop_timer. intros Hin.
  assert (Hle : forall l : list Timer,
            (List.length (drop_timer (tm_kind tm) (tm_id tm) l) <= List.length l)%nat).
  { unfold drop_timer. induction l as [|y l IH]; cbn [filter List.length]; [lia|].
    destruct (negb _); cbn [List.length]; lia. }
  unfold drop_timer in *.
  induction ts as [|x ts IH]; [destruct Hin|].
  cbn [filter List.length]. destruct Hin as [->|Hin].
  - assert (E : is_kind (tm_kind tm) tm && Pos.eqb (tm_id tm) (tm_id tm) = true).
    { unfold is_kind. rewrite Pos.eqb_refl. destruct (tm_kind tm); reflexivity. }
    rewrite E. cbn [negb]. specialize (Hle ts). lia.
  - specialize (IH Hin). destruct (negb _); cbn [List.length]; lia.
Qed.


(** With nothing held, an expiry is a trailing edge that runs nothing and
    only takes the timer out of the queue. *)
Lemma fire_quiet {A R : Type} (func : list A -> R) (cfg : Config)
    (tm : Timer) (w : World A R) :
  quiet w ->
  quiet (fire func cfg tm w) /\
  invoked (fire func cfg tm w) = invoked w /\
  result (refs (fire func cfg tm w)) = result (refs w) /\
  timers (fire func cfg tm w) = drop_timer (tm_kind tm) (tm_id tm) (timers w).
Proof.
  split_world w. unfold quiet. cbn. intros (-> & -> & -> & ->).
  unfold fire, timerExpired, shouldInvoke, trailingEdge. cbn.
  rewrite andb_false_r. cbn. repeat split.
Qed.

(** When not even an unbounded wait finds a timer, the queue is empty. *)
Lemma queue_drained (ts : list Timer) : next_timer None ts = None -> ts = [].
Proof.
  unfold next_timer. pose proof (earliest_spec ts) as Hs.
  destruct (earliest ts); [discriminate|]. intros _. exact Hs.
Qed.

(** With nothing held, the timers left expire one by one and nothing runs. *)
Lemma drain_quiet {A R : Type} (func : list A -> R) (cfg : Config) :
  forall (fuel : nat) (w : World A R),
  quiet w -> (List.length (timers w) <= fuel)%nat ->
  exists w',
    run_timers func cfg fuel None w = Some w' /\
    quiet w' /\ invoked w' = invoked w /\ result (refs w') = result (refs w) /\
    timers w' = [].
Proof.
  induction fuel as [|fuel IH]; intros w Hq Hlen;
    destruct (next_timer None (timers w)) as [tm|] eqn:E.
  - destruct (timers w) as [|x ts]; [discriminate E|]. cbn in Hlen. lia.
  - exists w. rewrite run_timers_quiet by exact E.
    split; [reflexivity|]. split; [exact Hq|]. split; [reflexivity|].
    split; [reflexivity|]. now apply queue_drained.
  - rewrite run_timers_step with (tm := tm) by exact E.
    assert (Hin : In tm (timers w)).
    { unfold next_timer in E. pose proof (earliest_spec (timers w)) as Hs.
      destruct (earliest (timers w)) as [x|]; [|discriminate].
      cbn in E. injection E as ->. tauto. }
    destruct (fire_quiet func cfg tm Hq) as (Hq' & Hlog & Hres & Hts).
    pose proof (drop_timer_shorter tm (timers w) Hin) as Hshort.
    destruct (IH (fire func cfg tm w) Hq') as (w' & Hrun & Hq'' & Hlog' & Hres' & Hts');
      [rewrite Hts; lia|].
    exists w'. split; [exact Hrun|]. split; [exact Hq''|].
    split; [congruence|]. split; [congruence|exact Hts'].
  - exists w. rewrite run_timers_quiet by exact E.
    split; [reflexivity|]. split; [exact Hq|]. split; [reflexivity|].
    split; [reflexivity|]. now apply queue_drained.
Qed.

(** X6.  After [cancel] on an enabled controller, letting every timer that
    is still in the queue expire runs nothing: the log and the cached result
    are those from before the cancellation, the queue ends up empty and
    nothing is pending.  One expiration per timer left is enough. *)
Theorem cancel_drops_pending_invocation {A R : Type} (func : list A -> R) (cfg : Config)
    (w : World A R) (fuel : nat)
    (Hup : mounted (refs w) = true)
    (Hfuel : (List.length (timers (cancel cfg w)) <= fuel)%nat) :
  exists w',
    run_timers func cfg fuel None (cancel cfg w) = Some w' /\
    invoked w' = invoked w /\
    result (refs w') = result (refs w) /\
    timers w' = [] /\
    pending w' = false.
Proof.
  assert (Hq : quiet (cancel cfg w)).
  { unfold quiet, cancel. destruct w as [[lc L tid la res m] clk ts nh log].
    cbn in Hup. subst m. destruct tid, (useRAF cfg); cbn; repeat split. }
  destruct (@drain_quiet A R func cfg fuel (cancel cfg w) Hq Hfuel)
    as (w' & Hrun & Hq' & Hlog & Hres & Hts).
  exists w'. split; [exact Hrun|].
  destruct Hq' as (_ & _ & _ & Hid').
  unfold pending. rewrite Hid'.
  split_world w. cbn in *.
  repeat split; try assumption.
  - rewrite Hlog. unfold cancel. destruct tid, (useRAF cfg); reflexivity.
  - rewrite Hres. unfold cancel. destruct tid, (useRAF cfg); reflexivity.
Qed.

Lemma cancel_drops_pending_invocation_witness :
  exists w',
    run_timers join_args cfg_default_100 0 None
      (cancel cfg_default_100
         (snd (debounced join_args cfg_default_100 ["a"%string] (initial_world 0))))
    = Some w' /\
    invoked w' = [] /\
    result (refs w') = None /\
    timers w' = [] /\
    pending w' = false.
Proof.
  refine (@cancel_drops_pending_invocation _ _ join_args cfg_default_100
            (snd (debounced join_args cfg_default_100 ["a"%string] (initial_world 0)))
            0%nat _ _).
  - reflexivity.
  - cbn. apply le_n.
Defined.


(** With [requestAnimationFrame] scheduling, or without [maxWait], a call,
    the expiry of a queued timer, [cancel] and the teardown keep the queue
    to the timer whose handle the controller holds. *)
Lemma tracked_step {A R : Type} (func : list A -> R)
    (cfg : Config) (w : World A R)
    (Hmode : useRAF cfg = true \/ maxing cfg = false)
    (Hw : tracked cfg w) :
  (forall args, tracked cfg (snd (debounced func cfg args w))) /\
  (forall tm, In tm (timers w) -> tracked cfg (fire func cfg tm w)) /\
  tracked cfg (cancel cfg w) /\
  tracked cfg (unmount w) /\
  (List.length (timers w) <= 1)%nat.
Proof.
  split_world w. unfold tracked, timer_kind in *. cbn in Hw.
  repeat split.
  - intros args. unfold debounced, Date_now.
    destruct (shouldInvoke cfg _ _) eqn:Es.
    + assert (m = true) as ->.
      { unfold shouldInvoke in Es. cbn in Es. destruct m; [reflexivity|discriminate]. }
      unfold startTimer, invokeFunc, dispatch.
      destruct tid as [h|], ts as [|tm [|tm' ts]]; try contradiction;
        destruct Hmode as [Hraf|Hmx]; rewrite ?Hraf, ?Hmx;
        destruct (maxing cfg), (leading cfg), (useRAF cfg) eqn:Er;
        try discriminate; cbn; rewrite ?Er; cbn; auto;
        destruct Hw as [-> Hk]; unfold drop_timer, is_kind; cbn;
        rewrite ?Hk, ?Pos.eqb_refl; cbn; auto.
    + unfold startTimer.
      destruct tid as [h|], ts as [|tm [|tm' ts]]; try contradiction;
        destruct m, (maxing cfg), (useRAF cfg) eqn:Er; cbn; rewrite ?Er; cbn; auto.
  - intros tm Hin.
    destruct tid as [h|], ts as [|tm0 [|tm' ts]]; try contradiction.
    destruct Hin as [<-|[]]. destruct Hw as [<- Hk].
    unfold fire, timerExpired, Date_now, drop_timer, is_kind. cbn.
    rewrite Pos.eqb_refl. destruct (tm_kind tm0); cbn;
      (destruct (shouldInvoke cfg _ _);
       unfold trailingEdge, startTimer, invokeFunc, dispatch;
       destruct la, (trailing cfg), (useRAF cfg) eqn:Er; cbn; rewrite ?Er; cbn; auto).
  - unfold cancel.
    destruct tid as [h|], ts as [|tm [|tm' ts]]; try contradiction; cbn; auto.
    destruct Hw as [-> Hk]. unfold drop_timer, is_kind.
    destruct (useRAF cfg); cbn; rewrite Hk, Pos.eqb_refl; cbn; exact I.
  - destruct tid as [h|], ts as [|tm [|tm' ts]]; try contradiction; cbn; auto.
  - destruct tid as [h|], ts as [|tm [|tm' ts]]; try contradiction; cbn; lia.
Qed.

(** The same along a run of operations none of which is a flush. *)
Lemma tracked_run {A R : Type} (func : list A -> R) (cfg : Config)
    (Hmode : useRAF cfg = true \/ maxing cfg = false) (ops : list (Op A)) :
  forall w : World A R,
  flush_free ops = true -> tracked cfg w -> tracked cfg (run_ops func cfg ops w).
Proof.
  induction ops as [|op ops IH]; intros w Hfree Hw; [exact Hw|].
  cbn [flush_free forallb] in Hfree. apply andb_true_iff in Hfree.
  destruct Hfree as [Hop Hfree].
  change (run_ops func cfg (op :: ops) w)
    with (run_ops func cfg ops (apply_op func cfg op w)).
  apply IH; [exact Hfree|].
  destruct op as [t args| | | |]; cbn [apply_op].
  - assert (Hw' : tracked cfg (with_clock (Z.max (clock w) t) w)) by exact Hw.
    exact (proj1 (@tracked_step A R func cfg
                    (with_clock (Z.max (clock w) t) w) Hmode Hw') args).
  - destruct (next_timer None (timers w)) as [tm|] eqn:E; [|exact Hw].
    apply (proj1 (proj2 (@tracked_step A R func cfg w Hmode Hw))).
    unfold next_timer in E. pose proof (earliest_spec (timers w)) as Hs.
    destruct (earliest (timers w)) as [x|]; [|discriminate].
    cbn in E. injection E as ->. tauto.
  - discriminate Hop.
  - exact (proj1 (proj2 (proj2 (@tracked_step A R func cfg w Hmode Hw)))).
  - exact (proj1 (proj2 (proj2 (proj2 (@tracked_step A R func cfg w Hmode Hw))))).
Qed.

(** [flush] gives up the handle and leaves the timer in the queue: the next
    call schedules a second one.  This holds for every configuration. *)
Lemma flush_then_call_two_timers {A R : Type} (func : list A -> R) (cfg : Config)
    (w : World A R) (t : Z) (args : list A) :
  tracked cfg w -> timerId (refs w) <> None ->
  timerId (refs (snd (flush func cfg w))) = None /\
  timers (snd (flush func cfg w)) = timers w /\
  List.length (timers (run_ops func cfg [OpFlush; OpCall t args] w)) = 2%nat.
Proof.
  destruct w as [[lc L tid la res m] clk ts nh log]. unfold tracked. cbn.
  intros Hw Hid. destruct tid as [h|]; [|congruence].
  destruct ts as [|tm [|tm' ts]]; try contradiction.
  unfold flush, trailingEdge, debounced, Date_now. cbn.
  destruct (trailing cfg), la; cbn;
    (split; [reflexivity|]; split; [reflexivity|]);
    match goal with
    | |- context [shouldInvoke cfg ?now ?s] => destruct (shouldInvoke cfg now s)
    end;
    destruct m, (maxing cfg), (leading cfg); unfold startTimer;
    destruct (useRAF cfg); reflexivity.
Qed.

(** X8.  With [requestAnimationFrame] scheduling, or without [maxWait]: in
    every state reached from a fresh controller by calls (at any clock
    readings), expiries of the queued timer (on time or late), [cancel] and
    the teardown, in any order and without [flush], the queue holds exactly
    the timer whose handle the controller holds, and nothing when it holds
    none; so at most one timer is live, and [pending()] tells whether one
    is.  [flush] is left out for cause: from any such state with a timer
    pending it gives up the handle and leaves the timer live, and the next
    call makes two. *)
Theorem one_timer_in_flush_free_runs {A R : Type} (func : list A -> R) (cfg : Config)
    (t0 : Z) (ops : list (Op A))
    (Hmode : useRAF cfg = true \/ maxing cfg = false)
    (Hfree : flush_free ops = true) :
  let w := run_ops func cfg ops (initial_world t0) in
  tracked cfg w /\
  (List.length (timers w) <= 1)%nat /\
  (pending w = false <-> timers w = []) /\
  (forall (t : Z) (args : list A),
      pending w = true ->
      timers (snd (flush func cfg w)) = timers w /\
      List.length (timers (run_ops func cfg [OpFlush; OpCall t args] w)) = 2%nat).
Proof.
  intros w.
  assert (Hw : tracked cfg w) by (apply tracked_run; [exact Hmode|exact Hfree|exact I]).
  split; [exact Hw|].
  split; [exact (proj2 (proj2 (proj2 (proj2 (@tracked_step A R func cfg w Hmode Hw)))))|].
  split.
  - unfold pending. unfold tracked in Hw.
    destruct (timerId (refs w)) as [h|], (timers w) as [|tm [|tm' ts]];
      try contradiction; cbn; split; congruence.
  - intros t args Hp.
    assert (Hid : timerId (refs w) <> None).
    { unfold pending in Hp. destruct (timerId (refs w)); [discriminate|discriminate Hp]. }
    destruct (@flush_then_call_two_timers A R func cfg w t args Hw Hid)
      as (_ & Hts & Hlen).
    split; [exact Hts|exact Hlen].
Qed.

Lemma one_timer_in_flush_free_runs_witness :
  let w :=
    run_ops join_args cfg_default_100
      [OpCall 0 ["a"]; OpCall 30 ["b"]; OpExpire; OpCall 200 ["c"]; OpUnmount]%string
      (initial_world 0) in
  tracked cfg_default_100 w /\ (List.length (timers w) <= 1)%nat.
Proof.
  pose proof (@one_timer_in_flush_free_runs _ _ join_args cfg_default_100 0
                [OpCall 0 ["a"]; OpCall 30 ["b"]; OpExpire; OpCall 200 ["c"];
                 OpUnmount]%string) as H.
  destruct H as (Hw & Hlen & _).
  - right. reflexivity.
  - reflexivity.
  - split; [exact Hw|exact Hlen].
Defined.




(** ** A burst with any choice of edges

    [setTimeout] scheduling, no [maxWait]. *)
Section AnyEdges.
Context {A R : Type} (func : list A -> R) (cfg : Config).
Hypothesis Hraf : useRAF cfg = false.
Hypothesis Hmax : maxing cfg = false.
Hypothesis Hwait : 0 <= wait cfg.

(** The only live timer expires [wait] after the last call: the trailing
    edge runs, and the queue is empty. *)
Lemma fire_after_wait (s : State A R) (clk : Z) (tm : Timer) (nh : positive)
    (log : list (Z * list A)) (c : Z) :
  tm_kind tm = Timeout ->
  lastCallTime s = Some c -> mounted s = true ->
  clk <= tm_due tm -> tm_due tm = c + wait cfg ->
  exists s',
    fire func cfg tm (mkWorld s clk [tm] nh log) =
    mkWorld s' (tm_due tm) [] nh (log ++ trailing_run cfg (tm_due tm) (lastArgs s)) /\
    mounted s' = true /\ timerId s' = None /\ lastCallTime s' = Some c /\
    lastArgs s' = None.
Proof.
  intros Hk Hc Hm Hclk Hd. destruct s as [lc L tid la res m]. cbn in Hc, Hm. subst lc m.
  unfold fire, timerExpired, shouldInvoke, Date_now, drop_timer, is_kind. zred.
  rewrite Hk, Pos.eqb_refl, Hmax, Z.max_r by lia. zred.
  replace (wait cfg <=? tm_due tm - c) with true by (symmetry; apply Z.leb_le; lia).
  rewrite orb_true_r. zred.
  unfold trailingEdge, invokeFunc, dispatch, trailing_run. zred.
  destruct la as [a|], (trailing cfg); zred; rewrite ?app_nil_r;
    eexists; split; try reflexivity; repeat split.
Qed.

(** One more call of the burst: at most one expiration comes before it. *)
Lemma call_in_burst log c c0 held w t a' fuel :
  in_burst cfg log c c0 held w -> c <= t < c + wait cfg -> (1 <= fuel)%nat ->
  exists c0' w',
    call_at func cfg fuel t a' w = Some w' /\ in_burst cfg log t c0' (Some a') w'.
Proof.
  intros (h & L & res & nh & -> & Hc0 & Hc) Ht Hf.
  destruct fuel as [|fuel]; [lia|].
  unfold call_at.
  destruct (c0 + wait cfg <=? t) eqn:Edue.
  - rewrite run_timers_step with (tm := mkTimer h Timeout (c0 + wait cfg))
      by (cbn; rewrite Edue; reflexivity).
    apply Z.leb_le in Edue.
    rewrite (@fire_too_early A R func cfg Hraf Hmax) with (c := c)
      by (cbn; try reflexivity; lia).
    rewrite run_timers_quiet
      by (cbn; replace (c + wait cfg <=? t) with false
            by (symmetry; apply Z.leb_gt; lia); reflexivity).
    rewrite (@debounced_while_pending A R func cfg Hmax) with (h := nh) by reflexivity.
    cbn. rewrite Z.max_r by lia.
    exists c. eexists. split; [reflexivity|].
    do 4 eexists. split; [reflexivity|]. lia.
  - rewrite run_timers_quiet by (cbn; rewrite Edue; reflexivity).
    apply Z.leb_gt in Edue.
    rewrite (@debounced_while_pending A R func cfg Hmax) with (h := h) by reflexivity.
    cbn. rewrite Z.max_r by lia.
    exists c0. eexists. split; [reflexivity|].
    do 4 eexists. split; [reflexivity|]. lia.
Qed.

(** The calls of a burst after the first. *)
Lemma rest_in_burst log rest : forall c c0 a held w fuel,
  in_burst cfg log c c0 held w -> spaced (wait cfg) c rest -> (1 <= fuel)%nat ->
  exists c0' w',
    run_calls func cfg fuel rest w = Some w' /\
    in_burst cfg log (fst (last rest (c, a))) c0'
      match rest with [] => held | _ :: _ => Some (snd (last rest (c, a))) end w'.
Proof.
  induction rest as [|[t a'] rest IH]; intros c c0 a held w fuel Hw Hs Hf.
  - exists c0, w. split; [reflexivity|exact Hw].
  - destruct Hs as [Ht Hs].
    destruct (call_in_burst a' Hw Ht Hf) as (c1 & w1 & E1 & Hw1).
    destruct (IH t c1 a' (Some a') w1 fuel Hw1 Hs Hf) as (c2 & w2 & E2 & Hw2).
    exists c2, w2. split.
    + cbn [run_calls]. rewrite E1. exact E2.
    + rewrite last_cons. destruct rest; exact Hw2.
Qed.

(** After the last call of the burst, at most two expirations lead to the
    trailing edge. *)
Lemma settle_in_burst log c c0 held w fuel :
  in_burst cfg log c c0 held w -> (2 <= fuel)%nat ->
  exists w', run_timers func cfg fuel None w = Some w' /\
             invoked w' = log ++ trailing_run cfg (c + wait cfg) held /\
             rested (wait cfg) w'.
Proof.
  intros (h & L & res & nh & -> & Hc0 & Hc) Hf.
  destruct fuel as [|[|fuel]]; try lia.
  rewrite run_timers_step with (tm := mkTimer h Timeout (c0 + wait cfg)) by reflexivity.
  destruct (Z.eq_dec c0 c) as [->|Hne].
  - edestruct fire_after_wait with (c := c) as (s' & E & Hm & Hid & Hlc & Ha);
      [| | | | |rewrite E]; [reflexivity|reflexivity|reflexivity|cbn; lia|reflexivity|].
    rewrite run_timers_quiet by reflexivity.
    eexists. split; [reflexivity|]. unfold rested, idle. cbn. rewrite Hm, Hid, Hlc.
    repeat split. lia.
  - rewrite (@fire_too_early A R func cfg Hraf Hmax) with (c := c)
      by (cbn; try reflexivity; lia).
    rewrite run_timers_step with (tm := mkTimer nh Timeout (c + wait cfg)) by reflexivity.
    edestruct fire_after_wait with (c := c) as (s' & E & Hm & Hid & Hlc & Ha);
      [| | | | |rewrite E]; [reflexivity|reflexivity|reflexivity|cbn; lia|reflexivity|].
    rewrite run_timers_quiet by reflexivity.
    eexists. split; [reflexivity|]. unfold rested, idle. cbn. rewrite Hm, Hid, Hlc.
    repeat split. lia.
Qed.

(** The first call of a burst finds the window closed: it opens one, and
    runs the target if [leading] is on. *)
Lemma first_call_opens (w0 : World A R) t a fuel :
  rested (wait cfg) w0 -> 0 <= t -> clock w0 <= t ->
  exists w',
    call_at func cfg fuel t a w0 = Some w' /\
    in_burst cfg (invoked w0 ++ if leading cfg then [(t, a)] else []) t t
      (if leading cfg then None else Some a) w'.
Proof.
  destruct w0 as [[lc L tid la res m] clk ts nh log].
  intros [(Hm & Hid & Hts) Hlc] Ht Hclk. zred_all. subst m tid ts.
  unfold call_at. rewrite run_timers_quiet by reflexivity.
  unfold debounced, shouldInvoke, Date_now. zred. rewrite (Z.max_r clk t) by lia.
  assert (Hs : js_not_time lc || (wait cfg <=? t - js_to_number lc) = true).
  { destruct lc as [c|]; [|reflexivity]. cbn [js_to_number].
    replace (wait cfg <=? t - c) with true by (symmetry; apply Z.leb_le; lia).
    apply orb_true_r. }
  rewrite Hs. zred.
  unfold startTimer, setTimeout, invokeFunc, dispatch. rewrite Hraf. zred.
  rewrite (Z.max_r 0 (wait cfg)) by lia.
  destruct (leading cfg); zred; rewrite ?app_nil_r;
    (eexists; split; [reflexivity|]; do 4 eexists; split; [reflexivity|]; lia).
Qed.
End AnyEdges.

(** X1.  [wait = W], any [leading] and [trailing], no [maxWait].  When
    nothing is pending and the last call is at least [W] old, a burst of
    calls each less than [W] after the one before runs the target at the
    first call, on its arguments, if [leading] is on, and [W] after the last
    call, on the last call's arguments, if [trailing] is on -- the latter
    unless the burst is a single call that the leading edge has served.
    Nothing else runs, and afterwards the controller is at rest again. *)
Theorem burst_runs_each_enabled_edge_once {A R : Type} (func : list A -> R)
    (W : Z) (lead : option bool) (trail : option (option bool)) (has_window : bool)
    (w0 : World A R) (t1 : Z) (a1 : list A) (rest : list (Z * list A)) (fuel : nat)
    (Hwait : 0 <= W) (Hrested : rested W w0) (Hstart : 0 <= t1 /\ clock w0 <= t1)
    (Hburst : spaced W t1 rest) (Hfuel : (2 <= fuel)%nat) :
  let cfg :=
    useDebouncedCallback (JNum W)
      (Some {| opt_maxWait := None; opt_leading := lead; opt_trailing := trail |})
      has_window in
  let final := last rest (t1, a1) in
  let at_start := if leading cfg then [(t1, a1)] else [] in
  let at_end :=
    if trailing cfg && match rest with [] => negb (leading cfg) | _ :: _ => true end
    then [(fst final + W, snd final)] else [] in
  exists w,
    run_to_rest func cfg fuel ((t1, a1) :: rest) w0 = Some w /\
    invoked w = invoked w0 ++ at_start ++ at_end /\
    rested W w.
Proof.
  intros cfg final at_start at_end.
  assert (Hraf : useRAF cfg = false).
  { unfold cfg, useDebouncedCallback. cbn. destruct (W =? 0); reflexivity. }
  destruct (@first_call_opens A R func cfg Hraf Hwait w0 t1 a1 fuel Hrested
              (proj1 Hstart) (proj2 Hstart)) as (w1 & E1 & Hw1).
  destruct (@rest_in_burst A R func cfg Hraf eq_refl _ rest t1 t1 a1 _ w1 fuel Hw1 Hburst)
    as (c0 & w2 & E2 & Hw2); [lia|].
  destruct (@settle_in_burst A R func cfg Hraf eq_refl Hwait _ _ _ _ w2 fuel Hw2 Hfuel)
    as (w3 & E3 & Hlog & Hr3).
  exists w3. unfold run_to_rest. cbn [run_calls]. rewrite E1, E2.
  split; [exact E3|]. split; [|exact Hr3].
  rewrite Hlog, <- app_assoc. f_equal. f_equal.
  unfold at_end, trailing_run. fold final.
  destruct rest as [|x rest']; [|destruct (trailing cfg); reflexivity].
  destruct (leading cfg), (trailing cfg); reflexivity.
Qed.

Lemma burst_runs_each_enabled_edge_once_witness :
  exists w,
    run_to_rest join_args (cfg_both_edges (JNum 100) None true) 2
      [(10, ["a"]); (40, ["b"])]%string (initial_world 0) = Some w /\
    invoked w = [(10, ["a"]); (140, ["b"])]%string /\
    rested 100 w.
Proof.
  refine (@burst_runs_each_enabled_edge_once _ _ join_args 100 (Some true)
            (Some (Some true)) true (initial_world 0) 10 ["a"%string]
            [(40, ["b"%string])] 2%nat _ _ _ _ _).
  - lia.
  - repeat split.
  - cbn. lia.
  - cbn. lia.
  - apply le_n.
Defined.

(** [requestAnimationFrame] is only used with a zero [wait]. *)
Lemma useRAF_zero_wait (wait0 : jsnum) (o : option Options) (has_window : bool) :
  useRAF (useDebouncedCallback wait0 o has_window) = true ->
  wait (useDebouncedCallback wait0 o has_window) = 0.
Proof.
  unfold useDebouncedCallback. cbn.
  destruct wait0 as [| |z]; try reflexivity. cbn.
  destruct (z =? 0); cbn; discriminate.
Qed.

(** An enabled controller whose timer expires too early schedules with
    [setTimeout]: with a zero [wait] no expiry is too early. *)
Lemma early_expiry_not_raf {A R : Type} (wait0 : jsnum) (o : option Options)
    (has_window : bool) (now : Z) (s : State A R) :
  mounted s = true ->
  shouldInvoke (useDebouncedCallback wait0 o has_window) now s = false ->
  useRAF (useDebouncedCallback wait0 o has_window) = false.
Proof.
  intros Hup Hearly.
  destruct (useRAF (useDebouncedCallback wait0 o has_window)) eqn:Er; [|reflexivity].
  apply useRAF_zero_wait in Er.
  unfold shouldInvoke in Hearly. rewrite Hup, Er in Hearly. cbn [negb] in Hearly.
  rewrite !orb_false_iff in Hearly. destruct Hearly as [[[_ Hb] Hc] _].
  apply Z.leb_gt in Hb. apply Z.ltb_ge in Hc. lia.
Qed.

(** X12.  For every configuration the hook builds and every state whose
    recorded call time is not the instant 0, [shouldInvoke] is the rule of
    four cases: enabled, and no call recorded, or the last call at least
    [wait] old, or the clock gone backwards, or the [maxWait] ceiling
    reached. *)
Theorem shouldInvoke_four_cases_off_zero {A R : Type}
    (wait0 : jsnum) (o : option Options) (has_window : bool) (now : Z) (s : State A R)
    (Hcall : lastCallTime s <> Some 0) :
  let cfg := useDebouncedCallback wait0 o has_window in
  shouldInvoke cfg now s = shouldInvoke_spec cfg now s.
Proof.
  intros cfg. apply shouldInvoke_spec_off_zero; [exact Hcall|].
  apply (useDebouncedCallback_maxing wait0 o has_window).
Qed.

Lemma shouldInvoke_four_cases_off_zero_witness :
  shouldInvoke cfg_max_150 50 (initial_refs (A := string) (R := string))
  = shouldInvoke_spec cfg_max_150 50 (initial_refs (A := string) (R := string)).
Proof.
  refine (@shouldInvoke_four_cases_off_zero _ _ (JNum 100)
            (Some {| opt_maxWait := Some (JNum 150); opt_leading := None;
                     opt_trailing := None |})
            true 50 initial_refs _).
  cbn. discriminate.
Defined.

(** X13.  When the timer of an enabled controller expires too early, a
    call is recorded, less than [wait] old; the timer is restarted with
    [setTimeout] after [wait] minus the age of the call, capped by what is
    left of [maxWait] when one is configured; and that delay is positive and
    at most [wait]. *)
Theorem remainingWait_positive_while_enabled {A R : Type}
    (wait0 : jsnum) (o : option Options) (has_window : bool) (now : Z) (s : State A R)
    (Hup : mounted s = true)
    (Hearly : shouldInvoke (useDebouncedCallback wait0 o has_window) now s = false) :
  let cfg := useDebouncedCallback wait0 o has_window in
  exists called,
    lastCallTime s = Some called /\
    0 <= now - called < wait cfg /\
    remainingWait cfg now s =
      match maxWait cfg with
      | Some m => Z.min (wait cfg - (now - called)) (m - (now - lastInvokeTime s))
      | None => wait cfg - (now - called)
      end /\
    0 < remainingWait cfg now s <= wait cfg /\
    useRAF cfg = false.
Proof.
  intros cfg.
  pose proof (early_expiry_not_raf wait0 o has_window now s Hup Hearly) as Hraf.
  destruct (remainingWait_enabled (useDebouncedCallback wait0 o has_window) now s Hup Hearly
              (proj1 (useDebouncedCallback_maxing wait0 o has_window)))
    as [Hform Hpos].
  unfold shouldInvoke in Hearly. rewrite Hup in Hearly.
  cbn [negb] in Hearly. rewrite !orb_false_iff in Hearly.
  destruct Hearly as [[[Hnull Hb] Hc] _].
  subst cfg.
  destruct (lastCallTime s) as [c|] eqn:Ec; [|discriminate].
  cbn [js_to_number] in *. apply Z.leb_gt in Hb. apply Z.ltb_ge in Hc.
  exists c. split; [reflexivity|]. split; [lia|]. split; [exact Hform|].
  split; [|exact Hraf].
  split; [exact Hpos|]. rewrite Hform.
  destruct (maxWait (useDebouncedCallback wait0 o has_window)); lia.
Qed.

Lemma remainingWait_positive_while_enabled_witness :
  let s := refs (snd (debounced join_args cfg_default_100 ["a"%string] (initial_world 10))) in
  exists called,
    lastCallTime s = Some called /\
    0 <= 50 - called < 100 /\
    remainingWait cfg_default_100 50 s = 100 - (50 - called) /\
    0 < remainingWait cfg_default_100 50 s <= 100 /\
    useRAF cfg_default_100 = false.
Proof.
  refine (@remainingWait_positive_while_enabled _ _ (JNum 100) None true 50
            (refs (snd (debounced join_args cfg_default_100 ["a"%string]
                          (initial_world 10)))) _ _).
  - reflexivity.
  - reflexivity.
Defined.

(** Removing a timer, of either kind, removes its share of the lateness. *)
Lemma lateness_drop_any t tm ts :
  In tm ts ->
  (lateness t (drop_timer (tm_kind tm) (tm_id tm) ts) + Z.to_nat (t + 1 - tm_due tm)
   <= lateness t ts)%nat.
Proof.
  intros Hin. unfold drop_timer.
  assert (E : is_kind (tm_kind tm) tm && Pos.eqb (tm_id tm) (tm_id tm) = true).
  { unfold is_kind. rewrite Pos.eqb_refl. destruct (tm_kind tm); reflexivity. }
  induction ts as [|x ts IH]; [destruct Hin|].
  cbn [filter lateness]. destruct Hin as [->|Hin].
  - rewrite E. cbn [negb]. clear IH.
    induction ts as [|y ts IH]; cbn [filter lateness]; [lia|].
    destruct (negb _); cbn [lateness]; lia.
  - specialize (IH Hin). destruct (negb _); cbn [lateness]; lia.
Qed.

(** While enabled, an expiry of a due timer brings the queue closer to
    instant [t]. *)
Lemma fire_enabled_catches_up {A R : Type} (func : list A -> R)
    (wait0 : jsnum) (o : option Options) (has_window : bool)
    (w : World A R) (tm : Timer) (t : Z) :
  let cfg := useDebouncedCallback wait0 o has_window in
  mounted (refs w) = true -> In tm (timers w) -> tm_due tm <= t ->
  mounted (refs (fire func cfg tm w)) = true /\
  (lateness t (timers (fire func cfg tm w)) < lateness t (timers w))%nat.
Proof.
  intros cfg Hup Hin Hdue.
  pose proof (lateness_drop_any t tm (timers w) Hin) as Hdrop.
  unfold fire, timerExpired, Date_now. cbn [snd].
  set (w1 := with_clock _ (with_timers _ w)).
  assert (Hup1 : mounted (refs w1) = true) by exact Hup.
  assert (Hts1 : timers w1 = drop_timer (tm_kind tm) (tm_id tm) (timers w)) by reflexivity.
  assert (Hclk1 : tm_due tm <= clock w1) by (cbn; lia).
  clearbody w1. destruct (shouldInvoke cfg (clock w1) (refs w1)) eqn:Es.
  - destruct w1 as [[lc L tid la res m] clk ts nh log]. cbn in *. subst m ts.
    unfold trailingEdge, invokeFunc, dispatch.
    destruct la, (trailing cfg); cbn; split; try reflexivity; lia.
  - pose proof (early_expiry_not_raf wait0 o has_window _ _ Hup1 Es) as Hraf.
    destruct (remainingWait_enabled cfg (clock w1) (refs w1) Hup1 Es
                (proj1 (useDebouncedCallback_maxing wait0 o has_window)))
      as [_ Hpos].
    fold cfg in Hraf.
    destruct w1 as [[lc L tid la res m] clk ts nh log]. cbn in Hup1, Hts1, Hclk1. subst m ts.
    unfold startTimer, setTimeout. rewrite Hraf. zred.
    split; [reflexivity|]. rewrite lateness_app. cbn [lateness tm_due].
    cbn [refs clock] in Hpos. lia.
Qed.

(** X11.  While the controller is enabled the event loop catches up with
    any instant [t]: within [lateness] expirations no timer is due by [t]
    any more, and the controller is still enabled.  This holds for every
    configuration the hook builds and every state of the queue. *)
Theorem timers_settle_while_enabled {A R : Type} (func : list A -> R)
    (wait0 : jsnum) (o : option Options) (has_window : bool) (t : Z) :
  forall (fuel : nat) (w : World A R),
  mounted (refs w) = true ->
  (lateness t (timers w) <= fuel)%nat ->
  exists w',
    run_timers func (useDebouncedCallback wait0 o has_window) fuel (Some t) w = Some w' /\
    mounted (refs w') = true /\
    Forall (fun tm => t < tm_due tm) (timers w').
Proof.
  induction fuel as [|fuel IH]; intros w Hup Hfuel;
    destruct (next_timer (Some t) (timers w)) as [tm|] eqn:E.
  - apply next_timer_some in E. destruct E as (Hin & Hdue & _).
    assert (Hz : lateness t (timers w) = O) by lia.
    apply lateness_zero in Hz.
    pose proof (proj1 (Forall_forall _ _) Hz tm Hin) as Hlt. cbv beta in Hlt. lia.
  - exists w. rewrite run_timers_quiet by exact E.
    repeat split; try assumption. now apply next_timer_none.
  - rewrite run_timers_step with (tm := tm) by exact E.
    apply next_timer_some in E. destruct E as (Hin & Hdue & _).
    destruct (@fire_enabled_catches_up A R func wait0 o has_window w tm t Hup Hin Hdue)
      as [Hup' Hlt].
    apply IH; [exact Hup'|lia].
  - exists w. rewrite run_timers_quiet by exact E.
    repeat split; try assumption. now apply next_timer_none.
Qed.

Lemma timers_settle_while_enabled_witness :
  exists w',
    run_timers join_args cfg_default_100 101 (Some 200)
      (snd (debounced join_args cfg_default_100 ["a"%string] (initial_world 0)))
    = Some w' /\
    mounted (refs w') = true /\
    Forall (fun tm => 200 < tm_due tm) (timers w').
Proof.
  refine (@timers_settle_while_enabled _ _ join_args (JNum 100) None true 200 101%nat
            (snd (debounced join_args cfg_default_100 ["a"%string] (initial_world 0)))
            _ _).
  - reflexivity.
  - vm_compute. apply le_n.
Defined.
